(** * Web3.LOC: discovery and deduplication pipeline

    A shallow embedding of the contract discovery pipeline of Web3.LOC
    ([contract_discovery/enhanced_blockchain_client.py],
    [contract_discovery/contract_database.py] and the discovery entry
    point of [main.py]), with the properties of its specification.

    Conventions of the embedding.
    - A Python [str] is a Rocq [string] whose characters are the code
      points 0..255 (the Latin-1 range); [str.lower], [str.isspace] and
      the UTF-8 encoder are written out for that range.
    - SHA-256 ([hashlib.sha256]) is implemented from FIPS 180-4 and
      checked on the standard test vectors.
    - The explorer API, the process environment and the wall clock are
      oracles gathered in a [world]; every request that is issued is
      appended to a trace, and the answer of the network may depend on
      the whole trace.
    - A function whose Python body can raise returns an [outcome], or
      an [option] for a call into the storage engine; an [except] clause
      is the [match] that turns the failure into the value the clause
      returns. *)

From Stdlib Require Import ZArith String Ascii List Bool Lia Sorted.
From stdpp Require Import base decidable option list gmap strings.

#[local] Set Warnings "-clear-no-such-hyp".

Local Open Scope string_scope.
Local Open Scope Z_scope.
Local Open Scope list_scope.
Local Open Scope stdpp_scope.

(** ** Python strings *)

Module PyStr.

Definition code (c : ascii) : Z := Z.of_nat (nat_of_ascii c).

Definition chr (z : Z) : ascii := ascii_of_nat (Z.to_nat z).

(** [str.isspace] on one character of the Latin-1 range: the ASCII
    controls 0x09-0x0D and 0x1C-0x1F, the space, NEL and NBSP. *)
Definition isspace (c : ascii) : bool :=
  let n := code c in
  ((9 <=? n) && (n <=? 13)) || ((28 <=? n) && (n <=? 31))
  || (n =? 32) || (n =? 133) || (n =? 160).

(** [str.lower] on one character: A-Z and the Latin-1 capitals
    0xC0-0xDE, the multiplication sign 0xD7 excepted. *)
Definition lower_char (c : ascii) : ascii :=
  let n := code c in
  if ((65 <=? n) && (n <=? 90))
     || ((192 <=? n) && (n <=? 222) && negb (n =? 215))
  then chr (n + 32) else c.

Fixpoint lower (s : string) : string :=
  match s with
  | EmptyString => EmptyString
  | String c s' => String (lower_char c) (lower s')
  end.

Fixpoint is_prefix (p s : string) : bool :=
  match p, s with
  | EmptyString, _ => true
  | String a p', String b s' => if Ascii.eqb a b then is_prefix p' s' else false
  | String _ _, EmptyString => false
  end.

(** [s.replace(old, new)] for a non-empty [old]: occurrences are found
    from the left and do not overlap.  [skip] counts the characters of
    the occurrence under the cursor that are still to be dropped. *)
Fixpoint replace_from (old new : string) (skip : nat) (s : string) : string :=
  match s with
  | EmptyString => EmptyString
  | String c s' =>
      match skip with
      | S k => replace_from old new k s'
      | O =>
          if is_prefix old s
          then String.append new (replace_from old new (Nat.pred (String.length old)) s')
          else String c (replace_from old new O s')
      end
  end.

Definition replace (old new s : string) : string := replace_from old new O s.

(** [s.split()]: the maximal runs of non-space characters.  [words]
    returns the word that starts at the head of [s] (empty when [s]
    starts with a space) and the words after it. *)
Definition push_word (w : string) (ws : list string) : list string :=
  match w with EmptyString => ws | _ => w :: ws end.

Fixpoint words (s : string) : string * list string :=
  match s with
  | EmptyString => (EmptyString, [])
  | String c s' =>
      let '(w, ws) := words s' in
      if isspace c then (EmptyString, push_word w ws) else (String c w, ws)
  end.

Definition split (s : string) : list string :=
  let '(w, ws) := words s in push_word w ws.

(** [sep.join(l)] *)
Fixpoint join (sep : string) (l : list string) : string :=
  match l with
  | [] => EmptyString
  | [w] => w
  | w :: l' => String.append w (String.append sep (join sep l'))
  end.

(** [s.lstrip()], [s.rstrip()], [s.strip()] *)
Fixpoint lstrip (s : string) : string :=
  match s with
  | EmptyString => EmptyString
  | String c s' => if isspace c then lstrip s' else s
  end.

Fixpoint rstrip (s : string) : string :=
  match s with
  | EmptyString => EmptyString
  | String c s' =>
      match rstrip s' with
      | EmptyString => if isspace c then EmptyString else String c EmptyString
      | r => String c r
      end
  end.

Definition strip (s : string) : string := rstrip (lstrip s).

(** [s.encode()]: UTF-8, one byte below 0x80 and two bytes above. *)
Fixpoint encode (s : string) : list Z :=
  match s with
  | EmptyString => []
  | String c s' =>
      let n := code c in
      if n <? 128 then n :: encode s'
      else Z.lor 192 (Z.shiftr n 6) :: Z.lor 128 (Z.land n 63) :: encode s'
  end.

(** [s[n:]] and [str.removeprefix] *)
Fixpoint drop (n : nat) (s : string) : string :=
  match n, s with
  | S k, String _ s' => drop k s'
  | _, _ => s
  end.

Definition removeprefix (p s : string) : string :=
  if is_prefix p s then drop (String.length p) s else s.

End PyStr.

(** ** SHA-256 ([hashlib.sha256(...).hexdigest()]) *)

Module Sha256.

Definition wrap (x : Z) : Z := x mod 2 ^ 32.

Definition rotr (n x : Z) : Z :=
  wrap (Z.lor (Z.shiftr x n) (Z.shiftl x (32 - n))).

Definition Ch (x y z : Z) : Z :=
  Z.lxor (Z.land x y) (Z.land (Z.lxor x (2 ^ 32 - 1)) z).

Definition Maj (x y z : Z) : Z :=
  Z.lxor (Z.lxor (Z.land x y) (Z.land x z)) (Z.land y z).

Definition Sigma0 (x : Z) : Z := Z.lxor (Z.lxor (rotr 2 x) (rotr 13 x)) (rotr 22 x).
Definition Sigma1 (x : Z) : Z := Z.lxor (Z.lxor (rotr 6 x) (rotr 11 x)) (rotr 25 x).
Definition sigma0 (x : Z) : Z := Z.lxor (Z.lxor (rotr 7 x) (rotr 18 x)) (Z.shiftr x 3).
Definition sigma1 (x : Z) : Z := Z.lxor (Z.lxor (rotr 17 x) (rotr 19 x)) (Z.shiftr x 10).

(** The constants of the standard are fractional parts of roots of the
    first primes, on 32 bits. *)
Definition is_prime (n : Z) : bool :=
  (1 <? n)
  && forallb (fun d => negb (n mod d =? 0))
       (map Z.of_nat (seq 2 (Z.to_nat n - 2))).

Definition primes (count : nat) : list Z :=
  firstn count (List.filter is_prime (map Z.of_nat (seq 2 400))).

(** The integer cube root, one bit at a time from bit [bits - 1] down. *)
Fixpoint cube_root (bits : nat) (n r : Z) : Z :=
  match bits with
  | O => r
  | S k =>
      let r' := r + 2 ^ Z.of_nat k in
      cube_root k n (if r' * r' * r' <=? n then r' else r)
  end.

(** The first 32 bits of the fractional part of the cube root of each
    of the first 64 primes. *)
Definition K : list Z :=
  Eval vm_compute in
    map (fun p => wrap (cube_root 40 (p * 2 ^ 96) 0)) (primes 64).

(** The first 32 bits of the fractional part of the square root of
    each of the first 8 primes. *)
Definition H0 : list Z :=
  Eval vm_compute in
    map (fun p => wrap (Z.sqrt (p * 2 ^ 64))) (primes 8).

(** Big-endian bytes of [x], [n] of them. *)
Fixpoint be_bytes (n : nat) (x : Z) : list Z :=
  match n with
  | O => []
  | S k => Z.land (Z.shiftr x (8 * Z.of_nat k)) 255 :: be_bytes k x
  end.

(** The message, the bit 1, zero bytes up to 56 modulo 64, and the
    length in bits on 8 bytes. *)
Definition pad (msg : list Z) : list Z :=
  let len := Z.of_nat (length msg) in
  let zeros := Z.to_nat ((55 - len) mod 64) in
  msg ++ [128] ++ repeat 0 zeros ++ be_bytes 8 (8 * len).

Fixpoint be_words (n : nat) (bs : list Z) : list Z :=
  match n, bs with
  | S k, b0 :: b1 :: b2 :: b3 :: bs' =>
      (b0 * 2 ^ 24 + b1 * 2 ^ 16 + b2 * 2 ^ 8 + b3) :: be_words k bs'
  | _, _ => []
  end.

Fixpoint blocks (n : nat) (bs : list Z) : list (list Z) :=
  match n with
  | O => []
  | S k => match bs with
           | [] => []
           | _ => be_words 16 bs :: blocks k (skipn 64 bs)
           end
  end.

(** The message schedule, most recent word first: [rev_w] holds
    W(t-1), W(t-2), ... *)
Definition next_w (rev_w : list Z) : Z :=
  wrap (sigma1 (nth 1 rev_w 0) + nth 6 rev_w 0
        + sigma0 (nth 14 rev_w 0) + nth 15 rev_w 0).

Fixpoint extend (n : nat) (rev_w : list Z) : list Z :=
  match n with
  | O => rev_w
  | S k => extend k (next_w rev_w :: rev_w)
  end.

Definition schedule (block : list Z) : list Z := rev (extend 48 (rev block)).

Record regs := Regs { ra : Z; rb : Z; rc : Z; rd : Z; re : Z; rf : Z; rg : Z; rh : Z }.

Definition round (r : regs) (kw : Z * Z) : regs :=
  let t1 := rh r + Sigma1 (re r) + Ch (re r) (rf r) (rg r) + fst kw + snd kw in
  let t2 := Sigma0 (ra r) + Maj (ra r) (rb r) (rc r) in
  Regs (wrap (t1 + t2)) (ra r) (rb r) (rc r) (wrap (rd r + t1)) (re r) (rf r) (rg r).

Definition of_list (h : list Z) : regs :=
  Regs (nth 0 h 0) (nth 1 h 0) (nth 2 h 0) (nth 3 h 0)
       (nth 4 h 0) (nth 5 h 0) (nth 6 h 0) (nth 7 h 0).

Definition to_list (r : regs) : list Z :=
  [ra r; rb r; rc r; rd r; re r; rf r; rg r; rh r].

Definition compress (h : list Z) (block : list Z) : list Z :=
  let r := fold_left round (combine K (schedule block)) (of_list h) in
  map (fun p : Z * Z => wrap (fst p + snd p)) (combine h (to_list r)).

Definition digest_words (msg : list Z) : list Z :=
  let p := pad msg in
  fold_left compress (blocks (length p) p) H0.

Definition hex_digit (d : Z) : ascii :=
  if d <? 10 then PyStr.chr (48 + d) else PyStr.chr (87 + d).

Fixpoint hex_of (n : nat) (x : Z) : string :=
  match n with
  | O => EmptyString
  | S k => String (hex_digit (Z.land (Z.shiftr x (4 * Z.of_nat k)) 15)) (hex_of k x)
  end.

Definition hexdigest (msg : list Z) : string :=
  fold_right (fun w acc => String.append (hex_of 8 w) acc) EmptyString (digest_words msg).

End Sha256.

(** ** Data model *)

(** [class ContractData]: the unit of discovery, typed as annotated. *)
Module ContractData.
Record t := Make {
  address : string;
  name : string;
  source_code : string;
  bytecode : string;
  compiler_version : string;
  optimization : bool;
  runs : Z;
  constructor_arguments : string;
  abi : string;
  creation_txhash : string;
  block_number : Z;
  chain : string;
  chain_id : Z;
  verified_date : string;
  bytecode_hash : string;
  source_hash : string
}.
End ContractData.

(** A [dict] with string keys and values, in insertion order. *)
Definition dict := list (string * string).

Fixpoint dict_get (d : dict) (k : string) : option string :=
  match d with
  | [] => None
  | (k', v) :: d' => if String.eqb k' k then Some v else dict_get d' k
  end.

(** [d.get(k, default)] *)
Definition dict_get_default (d : dict) (k default : string) : string :=
  match dict_get d k with Some v => v | None => default end.

(** [d[k] = v] *)
Fixpoint dict_set (d : dict) (k v : string) : dict :=
  match d with
  | [] => [(k, v)]
  | (k', v') :: d' =>
      if String.eqb k' k then (k', v) :: d' else (k', v') :: dict_set d' k v
  end.

(** Truth value of a [str] and of a [dict]. *)
Definition str_truthy (s : string) : bool :=
  match s with EmptyString => false | _ => true end.

Definition dict_truthy (d : dict) : bool :=
  match d with [] => false | _ => true end.

(** The value under the key ['result'] of an explorer answer.
    [getsourcecode] answers with a list of objects whose fields are all
    strings, [eth_getCode] with a hex string; [ROther] stands for any
    other JSON value, of which the code only observes the truth value
    before an operation on it raises. *)
Inductive json_result :=
| RMissing
| RText (s : string)
| RList (l : list dict)
| ROther (truthy : bool).

(** The decoded JSON object of an answer.  A ['status'] that is absent
    or not a string is [None]: it compares unequal to ['1']. *)
Record api_json := ApiJson {
  status : option string;
  message : option string;
  result : json_result
}.

(** What [session.get] and [response.json()] produce: an exception of
    the transport (timeout, refused connection), or a status code with a
    body; the body is [None] when it does not decode to a JSON object
    (then [response.json()] or [data.get] raises). *)
Inductive http_outcome :=
| HttpRaises
| HttpResponse (code : Z) (body : option api_json).

Record request := Request { url : string; params : dict }.

(** The requests issued so far, oldest first. *)
Definition trace := list request.

(** The surroundings of the program. [int_of_str] is the builtin
    [int] on a string: [None] when it raises [ValueError]. *)
Record world := World {
  http_get : trace -> request -> http_outcome;
  getenv : string -> option string;
  datetime_now : trace -> string;
  int_of_str : string -> option Z
}.

(** A caught or propagating Python exception. *)
Inductive outcome (A : Type) :=
| Return (a : A)
| Raise (msg : string).
Arguments Return {A} a.
Arguments Raise {A} msg.

(** ** ContentHasher *)

Definition sha256_hexdigest (s : string) : string :=
  Sha256.hexdigest (PyStr.encode s).

(** [EnhancedBlockchainClient._generate_bytecode_hash] *)
Definition _generate_bytecode_hash (bytecode : string) : string :=
  let clean_bytecode := PyStr.replace "0x" "" (PyStr.lower bytecode) in
  sha256_hexdigest clean_bytecode.

(** [EnhancedBlockchainClient._generate_source_hash] *)
Definition _generate_source_hash (source_code : string) : string :=
  let normalized := PyStr.join " " (PyStr.split source_code) in
  sha256_hexdigest normalized.

(** ** RateLimitedFetcher and ChainScanner: [EnhancedBlockchainClient] *)

Record client := Client {
  chain_name : string;
  api_key : string;
  api_url : string;
  chain_id : Z;
  session : bool;
  (** [Throttler(rate_limit=4, period=1.0)] *)
  throttler_rate_limit : Z;
  seen_bytecode_hashes : gset string;
  seen_source_hashes : gset string
}.

Definition set_session (b : bool) (c : client) : client :=
  Client (chain_name c) (api_key c) (api_url c) (chain_id c) b
         (throttler_rate_limit c) (seen_bytecode_hashes c) (seen_source_hashes c).

Definition add_seen (bh sh : string) (c : client) : client :=
  Client (chain_name c) (api_key c) (api_url c) (chain_id c) (session c)
         (throttler_rate_limit c)
         ({[bh]} ∪ seen_bytecode_hashes c) ({[sh]} ∪ seen_source_hashes c).

(** [EnhancedBlockchainClient.__init__] *)
Definition __init__ (w : world) (chain_name_arg : string) : outcome client :=
  let chain_name := PyStr.lower chain_name_arg in
  let config :=
    if String.eqb chain_name "ethereum"
    then Some (getenv w "ETHERSCAN_API_KEY", "https://api.etherscan.io/api", 1)
    else if String.eqb chain_name "base"
    then Some (getenv w "BASESCAN_API_KEY", "https://api.basescan.org/api", 8453)
    else None in
  match config with
  | None => Raise "Unsupported chain"
  | Some (key, api_url, chain_id) =>
      match key with
      | Some k =>
          if str_truthy k
          then Return (Client chain_name k api_url chain_id false 4 ∅ ∅)
          else Raise "No API key found"
      | None => Raise "No API key found"
      end
  end.

(** [initialize]: opens the HTTP session when there is none. *)
Definition initialize (c : client) : client :=
  if session c then c else set_session true c.

(** [cleanup] *)
Definition cleanup (c : client) : client :=
  if session c then set_session false c else c.

(** The body of the [try] block of [_make_request]: [session.get],
    the test of the HTTP status, [response.json()] and the test of the
    ['status'] field. *)
Definition try_request (w : world) (req : request) (tr : trace)
  : outcome (option api_json) :=
  match http_get w tr req with
  | HttpRaises => Raise "ClientError"
  | HttpResponse code body =>
      if code =? 200 then
        match body with
        | Some data =>
            match status data with
            | Some s => if String.eqb s "1" then Return (Some data) else Return None
            | None => Return None
            end
        | None => Raise "ContentTypeError"
        end
      else Return None
  end.

(** [_make_request]: the request is issued inside the throttler's
    [async with] block, under [try]; the clause [except Exception]
    turns what the block raises into [None]. *)
Definition _make_request (w : world) (c : client) (params : dict) (tr : trace)
  : option api_json * client * trace :=
  let c := initialize c in
  let params := dict_set params "apikey" (api_key c) in
  if session c then
    let req := Request (api_url c) params in
    let answer :=
      match try_request w req tr with
      | Return data => data
      | Raise _ => None
      end in
    (answer, c, tr ++ [req])
  else (None, c, tr).

(** [test_connection] *)
Definition test_connection (w : world) (c : client) (tr : trace)
  : bool * client * trace :=
  let params := [("module", "stats"); ("action", "ethsupply")] in
  let '(result, c, tr) := _make_request w c params tr in
  (match result with Some _ => true | None => false end, c, tr).

(** [_is_duplicate_contract] *)
Definition _is_duplicate_contract (c : client) (bytecode_hash source_hash : string) : bool :=
  if bool_decide (bytecode_hash ∈ seen_bytecode_hashes c) then true
  else if bool_decide (source_hash ∈ seen_source_hashes c) then true
  else false.

(** [get_contract_bytecode]: the value under ['result'], whatever it is. *)
Definition get_contract_bytecode (w : world) (c : client) (address : string) (tr : trace)
  : option json_result * client * trace :=
  let params := [("module", "proxy"); ("action", "eth_getCode");
                 ("address", address); ("tag", "latest")] in
  let '(response, c, tr) := _make_request w c params tr in
  (match response with
   | Some data =>
       match result data with
       | RMissing => None
       | r => Some r
       end
   | None => None
   end, c, tr).

(** [get_contract_source]: [response['result'][0]] raises on a value
    that is not a list of objects. *)
Definition get_contract_source (w : world) (c : client) (address : string) (tr : trace)
  : outcome (option dict) * client * trace :=
  let params := [("module", "contract"); ("action", "getsourcecode");
                 ("address", address)] in
  let '(response, c, tr) := _make_request w c params tr in
  (match response with
   | Some data =>
       match result data with
       | RMissing => Return None
       | RText s => if str_truthy s then Raise "AttributeError" else Return None
       | RList [] => Return None
       | RList (entry :: _) =>
           match dict_get entry "SourceCode" with
           | Some s => if str_truthy s then Return (Some entry) else Return None
           | None => Return None
           end
       | ROther truthy => if truthy then Raise "TypeError" else Return None
       end
   | None => Return None
   end, c, tr).

(** [l[:limit]] for an integer [limit]: a negative bound counts from
    the end of the list. *)
Definition slice_to {A : Type} (l : list A) (limit : Z) : list A :=
  if limit <? 0
  then firstn (Z.to_nat (Z.of_nat (length l) + limit)) l
  else firstn (Z.to_nat limit) l.

(** The candidate addresses of [get_verified_contracts]. *)
Definition test_addresses (c : client) : list string :=
  if String.eqb (chain_name c) "base" then
    [ "0x4200000000000000000000000000000000000006";
      "0x833589fCD6eDb6E08f4c7C32D4f71b54bdA02913";
      "0x50c5725949A6F0c72E6C4a641F24049A917DB0Cb";
      "0x2Ae3F1Ec7F1F5012CFEab0185bfc7aa3cf0DEc22";
      "0x940181a94A35A4569E4529A3CDfB74e38FD98631" ]
  else
    [ "0xdAC17F958D2ee523a2206206994597C13D831ec7";
      "0x6B175474E89094C44Da98b954EedeAC495271d0F";
      "0x1f9840a85d5aF5bf1D1762F925BDADdC4201F984";
      "0xA0b86a33E6441c35d55E8BaBf441A9E3A7b1b9B8";
      "0x514910771AF9Ca656af840dff83E8264EcF986CA" ].

(** [int(source_data.get('Runs', 0))] *)
Definition runs_of (w : world) (source_data : dict) : option Z :=
  match dict_get source_data "Runs" with
  | Some s => int_of_str w s
  | None => Some 0
  end.

(** What one iteration of the loop of [get_verified_contracts] does
    with an address.  [Skipped] covers every [continue], the one of the
    [except] clause included. *)
Inductive step_result :=
| Accepted (contract : ContractData.t)
| Skipped (why : string).

(** The part of the loop body that follows the two fetches. *)
Definition admit_contract (w : world) (c : client) (address : string)
    (source_data : dict) (bytecode : string) (tr : trace)
  : step_result * client :=
  let bytecode_hash := _generate_bytecode_hash bytecode in
  let source_hash :=
    _generate_source_hash (dict_get_default source_data "SourceCode" "") in
  if _is_duplicate_contract c bytecode_hash source_hash
  then (Skipped "duplicate", c)
  else
    let c := add_seen bytecode_hash source_hash c in
    match runs_of w source_data with
    | None => (Skipped "error", c)
    | Some runs =>
        (Accepted
           {| ContractData.address := address;
              ContractData.name := dict_get_default source_data "ContractName" "Unknown";
              ContractData.source_code := dict_get_default source_data "SourceCode" "";
              ContractData.bytecode := bytecode;
              ContractData.compiler_version :=
                dict_get_default source_data "CompilerVersion" "";
              ContractData.optimization :=
                String.eqb (dict_get_default source_data "OptimizationUsed" "0") "1";
              ContractData.runs := runs;
              ContractData.constructor_arguments :=
                dict_get_default source_data "ConstructorArguments" "";
              ContractData.abi := dict_get_default source_data "ABI" "";
              ContractData.creation_txhash := "";
              ContractData.block_number := 0;
              ContractData.chain := chain_name c;
              ContractData.chain_id := chain_id c;
              ContractData.verified_date := datetime_now w tr;
              ContractData.bytecode_hash := bytecode_hash;
              ContractData.source_hash := source_hash |}, c)
    end.

(** The body of the [for] loop, [try] and [except] included. *)
Definition scan_address (w : world) (c : client) (address : string) (tr : trace)
  : step_result * client * trace :=
  let '(source, c, tr) := get_contract_source w c address tr in
  match source with
  | Raise _ => (Skipped "error", c, tr)
  | Return None => (Skipped "not verified", c, tr)
  | Return (Some source_data) =>
      if negb (dict_truthy source_data)
         || negb (str_truthy (dict_get_default source_data "SourceCode" ""))
      then (Skipped "not verified", c, tr)
      else
        let '(code, c, tr) := get_contract_bytecode w c address tr in
        match code with
        | None => (Skipped "no bytecode", c, tr)
        | Some (RText bytecode) =>
            if str_truthy bytecode
            then let '(r, c) := admit_contract w c address source_data bytecode tr in
                 (r, c, tr)
            else (Skipped "no bytecode", c, tr)
        | Some (RList []) => (Skipped "no bytecode", c, tr)
        | Some (RList (_ :: _)) => (Skipped "error", c, tr)
        | Some (ROther truthy) =>
            (Skipped (if truthy then "error" else "no bytecode"), c, tr)
        | Some RMissing => (Skipped "no bytecode", c, tr)
        end
  end.

(** The [for] loop over the candidate addresses. *)
Fixpoint scan_loop (w : world) (addresses : list string) (c : client)
    (tr : trace) (contracts : list ContractData.t)
  : list ContractData.t * client * trace :=
  match addresses with
  | [] => (contracts, c, tr)
  | address :: rest =>
      let '(r, c, tr) := scan_address w c address tr in
      match r with
      | Accepted contract_data => scan_loop w rest c tr (contracts ++ [contract_data])
      | Skipped _ => scan_loop w rest c tr contracts
      end
  end.

(** [EnhancedBlockchainClient.get_verified_contracts] *)
Definition get_verified_contracts (w : world) (c : client) (limit : Z) (tr : trace)
  : list ContractData.t * client * trace :=
  scan_loop w (slice_to (test_addresses c) limit) c tr [].

(** ** DiscoveryOrchestrator: [BlockchainClientManager] *)

(** [self.clients] is a [dict] from chain names to clients, iterated in
    insertion order. *)
Record manager := Manager {
  clients : list (string * client);
  _initialized : bool
}.

Fixpoint clients_set (l : list (string * client)) (k : string) (c : client)
  : list (string * client) :=
  match l with
  | [] => [(k, c)]
  | (k', c') :: l' =>
      if String.eqb k' k then (k', c) :: l' else (k', c') :: clients_set l' k c
  end.

(** One iteration of the loop of [BlockchainClientManager.initialize]. *)
Definition initialize_chain (w : world) (chain : string)
    (cs : list (string * client)) (tr : trace)
  : list (string * client) * trace :=
  match __init__ w chain with
  | Raise _ => (cs, tr)
  | Return c =>
      let c := initialize c in
      let '(ok, c, tr) := test_connection w c tr in
      if ok then (clients_set cs chain c, tr) else (cs, tr)
  end.

Definition supported_chains : list string := ["ethereum"; "base"].

(** [BlockchainClientManager.initialize] *)
Definition manager_initialize (w : world) (m : manager) (tr : trace)
  : manager * trace :=
  if _initialized m then (m, tr)
  else
    let '(cs, tr) :=
      fold_left (fun acc chain => initialize_chain w chain (fst acc) (snd acc))
                supported_chains (clients m, tr) in
    (Manager cs true, tr).

(** The global deduplication of one chain's records: the inner [for]
    loop of [get_all_verified_contracts]. *)
Fixpoint global_dedup (contracts : list ContractData.t)
    (global_bytecode_hashes global_source_hashes : gset string)
    (unique_contracts : list ContractData.t)
  : list ContractData.t * gset string * gset string :=
  match contracts with
  | [] => (unique_contracts, global_bytecode_hashes, global_source_hashes)
  | contract :: rest =>
      if bool_decide (ContractData.bytecode_hash contract ∉ global_bytecode_hashes)
         && bool_decide (ContractData.source_hash contract ∉ global_source_hashes)
      then global_dedup rest
             ({[ContractData.bytecode_hash contract]} ∪ global_bytecode_hashes)
             ({[ContractData.source_hash contract]} ∪ global_source_hashes)
             (unique_contracts ++ [contract])
      else global_dedup rest global_bytecode_hashes global_source_hashes unique_contracts
  end.

(** The outer loop of [get_all_verified_contracts], over
    [self.clients.items()].  The clients are objects shared with the
    manager: their new state is what the manager holds afterwards. *)
Fixpoint chains_loop (w : world) (cs : list (string * client)) (limit_per_chain : Z)
    (tr : trace) (all_contracts : list ContractData.t)
    (global_bytecode_hashes global_source_hashes : gset string)
  : list ContractData.t * list (string * client) * trace :=
  match cs with
  | [] => (all_contracts, [], tr)
  | (chain, c) :: rest =>
      let '(contracts, c, tr) := get_verified_contracts w c limit_per_chain tr in
      let '(unique_contracts, gb, gs) :=
        global_dedup contracts global_bytecode_hashes global_source_hashes [] in
      let '(all, rest, tr) :=
        chains_loop w rest limit_per_chain tr (all_contracts ++ unique_contracts) gb gs in
      (all, (chain, c) :: rest, tr)
  end.

(** [BlockchainClientManager.get_all_verified_contracts] *)
Definition get_all_verified_contracts (w : world) (m : manager) (limit_per_chain : Z)
    (tr : trace)
  : list ContractData.t * manager * trace :=
  let '(all, cs, tr) := chains_loop w (clients m) limit_per_chain tr [] ∅ ∅ in
  (all, Manager cs (_initialized m), tr).

(** ** ContractStore: [ContractDatabase] over SQLite *)

Module Sqlite.

(** A row of the table [contracts]: the sixteen columns filled from
    the record, and the columns the table adds. *)
Record row := Row {
  id : Z;
  contract : ContractData.t;
  contract_summary : string;
  created_at : string;
  updated_at : string
}.

(** A bound parameter. *)
Inductive value :=
| VText (s : string)
| VInt (z : Z).

(** [sqlite3] raises [OverflowError] on an integer outside 64 bits. *)
Definition fits_int64 (z : Z) : bool :=
  (- 2 ^ 63 <=? z) && (z <? 2 ^ 63).

Definition bindable (v : value) : bool :=
  match v with VText _ => true | VInt z => fits_int64 z end.

(** [SELECT id FROM contracts WHERE bytecode_hash = ? OR source_hash = ?]
    followed by [fetchone()]. *)
Definition select_by_hash (rows : list row) (bytecode_hash source_hash : string)
  : option row :=
  find (fun r =>
          String.eqb (ContractData.bytecode_hash (contract r)) bytecode_hash
          || String.eqb (ContractData.source_hash (contract r)) source_hash) rows.

(** The two [UNIQUE] columns. *)
Definition unique_ok (rows : list row) (c : ContractData.t) : bool :=
  forallb (fun r =>
             negb (String.eqb (ContractData.bytecode_hash (contract r))
                              (ContractData.bytecode_hash c))
             && negb (String.eqb (ContractData.source_hash (contract r))
                                 (ContractData.source_hash c))) rows.

(** [INSERT INTO contracts (...) VALUES (...)]: [None] when binding
    raises or a constraint is violated.  [last_id] is the counter of
    [AUTOINCREMENT]; [now] is [CURRENT_TIMESTAMP]. *)
Definition insert (rows : list row) (last_id : Z) (c : ContractData.t)
    (summary now : string) : option (list row * Z) :=
  if fits_int64 (ContractData.runs c)
     && fits_int64 (ContractData.block_number c)
     && fits_int64 (ContractData.chain_id c)
  then
    if unique_ok rows c
    then Some (rows ++ [Row (last_id + 1) c summary now now], last_id + 1)
    else None
  else None.

(** The conditions [get_contracts] can put after [WHERE 1=1]. *)
Inductive cond :=
| ChainEq
| NameLike
| CompilerVersionLike
| OptimizationEq
| AddressEq.

(** A parsed [SELECT * FROM contracts WHERE 1=1 ... ORDER BY created_at
    DESC ...] statement. *)
Record select := Select {
  conds : list cond;
  has_limit : bool;
  has_offset : bool
}.

Fixpoint strip_prefix (p s : string) : option string :=
  match p, s with
  | EmptyString, _ => Some s
  | String a p', String b s' => if Ascii.eqb a b then strip_prefix p' s' else None
  | String _ _, EmptyString => None
  end.

Definition cond_text (c : cond) : string :=
  match c with
  | ChainEq => " AND chain = ?"
  | NameLike => " AND name LIKE ?"
  | CompilerVersionLike => " AND compiler_version LIKE ?"
  | OptimizationEq => " AND optimization = ?"
  | AddressEq => " AND address = ?"
  end.

Definition all_conds : list cond :=
  [ChainEq; NameLike; CompilerVersionLike; OptimizationEq; AddressEq].

(** The first condition whose text starts [s], with what follows it. *)
Fixpoint strip_cond (cs : list cond) (s : string) : option (cond * string) :=
  match cs with
  | [] => None
  | c :: cs' =>
      match strip_prefix (cond_text c) s with
      | Some rest => Some (c, rest)
      | None => strip_cond cs' s
      end
  end.

Fixpoint parse_conds (fuel : nat) (s : string) : list cond * string :=
  match fuel with
  | O => ([], s)
  | S k =>
      match strip_cond all_conds s with
      | Some (c, rest) => let '(cs, tail) := parse_conds k rest in (c :: cs, tail)
      | None => ([], s)
      end
  end.

(** The grammar of the statement's tail: [LIMIT expr], optionally
    followed by [OFFSET expr]; an [OFFSET] clause cannot stand without
    a [LIMIT] clause, and anything else is a syntax error. *)
Definition parse_tail (s : string) : option (bool * bool) :=
  if String.eqb s "" then Some (false, false)
  else if String.eqb s " LIMIT ?" then Some (true, false)
  else if String.eqb s " LIMIT ? OFFSET ?" then Some (true, true)
  else None.

(** The parser, on the statements of [get_contracts]: [None] is
    [sqlite3.OperationalError]. *)
Definition parse (query : string) : option select :=
  match strip_prefix "SELECT * FROM contracts WHERE 1=1" query with
  | None => None
  | Some s =>
      let '(cs, s) := parse_conds (String.length s) s in
      match strip_prefix " ORDER BY created_at DESC" s with
      | None => None
      | Some tail =>
          match parse_tail tail with
          | Some (l, o) => Some (Select cs l o)
          | None => None
          end
      end
  end.

Definition fold_case (c : ascii) : ascii :=
  let n := PyStr.code c in
  if (65 <=? n) && (n <=? 90) then PyStr.chr (n + 32) else c.

(** [subject LIKE pattern]: [%] matches any sequence, [_] any one
    character, letters of ASCII match without regard to case. *)
Fixpoint like (pattern subject : string) : bool :=
  match pattern with
  | EmptyString => match subject with EmptyString => true | _ => false end
  | String p pattern' =>
      if Ascii.eqb p "%" then
        (fix any (s : string) : bool :=
           like pattern' s
           || match s with
              | EmptyString => false
              | String _ s' => any s'
              end) subject
      else
        match subject with
        | EmptyString => false
        | String c subject' =>
            (Ascii.eqb p "_" || Ascii.eqb (fold_case p) (fold_case c))
            && like pattern' subject'
        end
  end.

(** One condition on one row, with its bound parameter.  The
    parameters [get_contracts] binds are texts, but for
    [optimization], stored and bound as 0 or 1; a binding of the other
    type is outside the modelled fragment and is refused. *)
Definition eval_cond (c : cond) (v : value) (r : row) : option bool :=
  match c, v with
  | ChainEq, VText s => Some (String.eqb (ContractData.chain (contract r)) s)
  | NameLike, VText s => Some (like s (ContractData.name (contract r)))
  | CompilerVersionLike, VText s =>
      Some (like s (ContractData.compiler_version (contract r)))
  | OptimizationEq, VInt z =>
      Some ((if ContractData.optimization (contract r) then 1 else 0) =? z)
  | AddressEq, VText s => Some (String.eqb (ContractData.address (contract r)) s)
  | _, _ => None
  end.

Fixpoint eval_where (cs : list cond) (vs : list value) (r : row) : option bool :=
  match cs, vs with
  | [], _ => Some true
  | c :: cs', v :: vs' =>
      match eval_cond c v r, eval_where cs' vs' r with
      | Some b, Some b' => Some (b && b')
      | _, _ => None
      end
  | _ :: _, [] => None
  end.

Fixpoint where_rows (cs : list cond) (vs : list value) (rows : list row)
  : option (list row) :=
  match rows with
  | [] => Some []
  | r :: rows' =>
      match eval_where cs vs r, where_rows cs vs rows' with
      | Some b, Some out => Some (if b then r :: out else out)
      | _, _ => None
      end
  end.

(** [ORDER BY created_at DESC]: rows with equal timestamps stay in
    table order. *)
Fixpoint insert_desc (r : row) (sorted : list row) : list row :=
  match sorted with
  | [] => [r]
  | r' :: sorted' =>
      if String.leb (created_at r') (created_at r)
      then r :: sorted
      else r' :: insert_desc r sorted'
  end.

Definition order_by_created_at_desc (rows : list row) : list row :=
  fold_right insert_desc [] rows.

(** [LIMIT n]: a negative [n] is no limit.  [OFFSET m]: a negative
    [m] is zero. *)
Definition apply_limit (n : Z) (rows : list row) : list row :=
  if n <? 0 then rows else firstn (Z.to_nat n) rows.

Definition apply_offset (m : Z) (rows : list row) : list row :=
  skipn (Z.to_nat m) rows.

Definition int_param (v : value) : option Z :=
  match v with VInt z => Some z | VText _ => None end.

(** [conn.execute(query, params)] and [fetchall()]: [None] when the
    statement does not parse, when the number of parameters is not the
    number of placeholders, or when binding raises. *)
Definition execute_select (rows : list row) (query : string) (ps : list value)
  : option (list row) :=
  match parse query with
  | None => None
  | Some stmt =>
      let n := length (conds stmt) in
      let tail := skipn n ps in
      if negb (forallb bindable ps) then None
      else if negb (length ps =? n + (if has_limit stmt then 1 else 0)
                                  + (if has_offset stmt then 1 else 0))%nat
      then None
      else
        match where_rows (conds stmt) (firstn n ps) rows with
        | None => None
        | Some hits =>
            let sorted := order_by_created_at_desc hits in
            match has_limit stmt, has_offset stmt, tail with
            | false, false, [] => Some sorted
            | true, false, [l] =>
                match int_param l with
                | Some n => Some (apply_limit n sorted)
                | None => None
                end
            | true, true, [l; o] =>
                match int_param l, int_param o with
                | Some n, Some m => Some (apply_limit n (apply_offset m sorted))
                | _, _ => None
                end
            | _, _, _ => None
            end
        end
  end.

End Sqlite.

(** [self.conn] is the open connection or [None]; the table outlives
    the connection. *)
Record ContractDatabase := Database {
  conn : bool;
  contracts : list Sqlite.row;
  last_id : Z
}.

(** [ContractDatabase.insert_contract].  [now] is the clock of the
    engine at the time of the call. *)
Definition insert_contract (db : ContractDatabase) (contract : ContractData.t)
    (summary now : string) : bool * ContractDatabase :=
  if negb (conn db) then (false, db)
  else
    match Sqlite.select_by_hash (contracts db)
            (ContractData.bytecode_hash contract) (ContractData.source_hash contract) with
    | Some existing => (false, db)
    | None =>
        match Sqlite.insert (contracts db) (last_id db) contract summary now with
        | Some (rows, n) => (true, Database (conn db) rows n)
        | None => (false, db)
        end
    end.

(** The keys of [filters] that [get_contracts] looks at; no [filters]
    and an empty [dict] are the record of five [None]. *)
Record filters := Filters {
  f_chain : option string;
  f_name : option string;
  f_compiler_version : option string;
  f_optimization : option bool;
  f_address : option string
}.

Definition no_filters : filters := Filters None None None None None.

(** One [if key in filters] block: extends the query and the parameters. *)
Definition add_filter {A : Type} (key : option A) (text : string)
    (param : A -> Sqlite.value) (qp : string * list Sqlite.value)
  : string * list Sqlite.value :=
  match key with
  | Some v => (String.append (fst qp) text, snd qp ++ [param v])
  | None => qp
  end.

(** The statement and the parameters [get_contracts] hands to
    [conn.execute]. *)
Definition build_query (f : filters) (limit : option Z) (offset : Z)
  : string * list Sqlite.value :=
  let qp := ("SELECT * FROM contracts WHERE 1=1", []) in
  let qp := add_filter (f_chain f) " AND chain = ?" Sqlite.VText qp in
  let qp := add_filter (f_name f) " AND name LIKE ?"
              (fun v => Sqlite.VText (String.append "%" (String.append v "%"))) qp in
  let qp := add_filter (f_compiler_version f) " AND compiler_version LIKE ?"
              (fun v => Sqlite.VText (String.append "%" (String.append v "%"))) qp in
  let qp := add_filter (f_optimization f) " AND optimization = ?"
              (fun b : bool => Sqlite.VInt (if b then 1 else 0)) qp in
  let qp := add_filter (f_address f) " AND address = ?" Sqlite.VText qp in
  let qp := (String.append (fst qp) " ORDER BY created_at DESC", snd qp) in
  let qp :=
    match limit with
    | Some l => if l =? 0 then qp
                else (String.append (fst qp) " LIMIT ?", snd qp ++ [Sqlite.VInt l])
    | None => qp
    end in
  if offset =? 0 then qp
  else (String.append (fst qp) " OFFSET ?", snd qp ++ [Sqlite.VInt offset]).

(** [ContractDatabase.get_contracts] *)
Definition get_contracts (db : ContractDatabase) (f : filters) (limit : option Z)
    (offset : Z) : list Sqlite.row :=
  if negb (conn db) then []
  else
    let '(query, ps) := build_query f limit offset in
    match Sqlite.execute_select (contracts db) query ps with
    | Some rows => rows
    | None => []
    end.

(** [ContractDatabase.close] *)
Definition close (db : ContractDatabase) : ContractDatabase :=
  Database false (contracts db) (last_id db).

(** ** The discovery entry point: [Web3LOCSystem] *)

(** The collaborators of the pipeline, outside its scope.
    [analyze_contract] is [ContractAnalyzer.analyze_contract], whose
    body is one [try] with a fallback value: it returns a string on
    every record.  [github_initialize_ok] tells whether
    [GitHubStorageManager.initialize] returns or raises; what the store
    receives afterwards stays in the store.  [generate_readme] is [None]
    when it raises.  [current_timestamp] is the clock of the storage
    engine. *)
Record collaborators := Collaborators {
  analyze_contract : ContractData.t -> string;
  github_initialize_ok : bool;
  generate_readme : ContractData.t -> string -> option string;
  current_timestamp : ContractDatabase -> string
}.

Record Web3LOCSystem := System {
  client_manager : option manager;
  database : ContractDatabase;
  is_initialized : bool
}.

(** The summary [dict] the discovery returns. *)
Record results := Results {
  success : bool;
  result_message : option string;
  contracts_processed : Z;
  contracts_added : Z;
  duplicates_found : Z;
  errors : Z;
  readme_files : list string
}.

(** The body of the loop of [_process_contracts] on one record.  The
    calls inside the outer [try] return on every input, and the calls to
    the GitHub store and to the README generator have a [try] of their
    own, so the [except] clause that counts [errors] has no path leading
    to it.  The call to the GitHub store leaves the summary as it is. *)
Definition process_contract (k : collaborators) (generate_readmes : bool)
    (acc : results * ContractDatabase) (contract : ContractData.t)
  : results * ContractDatabase :=
  let '(res, db) := acc in
  let summary := analyze_contract k contract in
  let '(inserted, db) := insert_contract db contract summary (current_timestamp k db) in
  if inserted then
    let files :=
      if generate_readmes then
        match generate_readme k contract summary with
        | Some readme_path => readme_files res ++ [readme_path]
        | None => readme_files res
        end
      else readme_files res in
    (Results (success res) (result_message res) (contracts_processed res)
             (contracts_added res + 1) (duplicates_found res) (errors res) files, db)
  else
    (Results (success res) (result_message res) (contracts_processed res)
             (contracts_added res) (duplicates_found res + 1) (errors res)
             (readme_files res), db).

(** [Web3LOCSystem._process_contracts] *)
Definition _process_contracts (k : collaborators) (db : ContractDatabase)
    (contracts : list ContractData.t) (generate_readmes : bool)
  : results * ContractDatabase :=
  fold_left (process_contract k generate_readmes) contracts
            (Results true None (Z.of_nat (length contracts)) 0 0 0 [], db).

(** [Web3LOCSystem.initialize]: a new manager is created and
    initialized; a failure of the GitHub store propagates. *)
Definition system_initialize (w : world) (k : collaborators) (s : Web3LOCSystem)
    (tr : trace) : outcome unit * Web3LOCSystem * trace :=
  let '(m, tr) := manager_initialize w (Manager [] false) tr in
  if github_initialize_ok k
  then (Return tt, System (Some m) (database s) true, tr)
  else (Raise "github", System (Some m) (database s) (is_initialized s), tr).

Definition failure (message : string) (n_errors : Z) : results :=
  Results false (Some message) 0 0 0 n_errors [].

(** [Web3LOCSystem.discover_contracts].  The argument [chains] is not
    read by the method. *)
Definition discover_contracts (w : world) (k : collaborators) (s : Web3LOCSystem)
    (chains : option (list string)) (limit_per_chain : Z) (generate_readmes : bool)
    (tr : trace) : outcome results * Web3LOCSystem * trace :=
  let '(started, s, tr) :=
    if is_initialized s then (Return tt, s, tr) else system_initialize w k s tr in
  match started with
  | Raise e => (Raise e, s, tr)
  | Return _ =>
      match client_manager s with
      | None => (Return (failure "Discovery failed: Client manager not initialized" 1), s, tr)
      | Some m =>
          let '(contracts, m, tr) := get_all_verified_contracts w m limit_per_chain tr in
          match contracts with
          | [] => (Return (failure "No contracts found" 0),
                   System (Some m) (database s) (is_initialized s), tr)
          | _ =>
              let '(res, db) := _process_contracts k (database s) contracts generate_readmes in
              (Return res, System (Some m) db (is_initialized s), tr)
          end
      end
  end.

(** ** The specification's wording, for comparison with the code *)

Module Spec.

(** "bytecode hash = hash of the lower-cased bytecode string with any
    0x prefix stripped" *)
Definition bytecode_hash (bytecode : string) : string :=
  sha256_hexdigest (PyStr.removeprefix "0x" (PyStr.lower bytecode)).

(** "collapsing all whitespace runs to single spaces": [after_space]
    tells that the previous character belongs to a run already
    replaced. *)
Fixpoint collapse_from (after_space : bool) (s : string) : string :=
  match s with
  | EmptyString => EmptyString
  | String c s' =>
      if PyStr.isspace c
      then if after_space then collapse_from true s'
           else String " " (collapse_from true s')
      else String c (collapse_from false s')
  end.

Definition collapse_whitespace (s : string) : string := collapse_from false s.

(** "source hash = hash of the source text after collapsing all
    whitespace runs to single spaces" *)
Definition source_hash (source_code : string) : string :=
  sha256_hexdigest (collapse_whitespace source_code).

(** "The scanner terminates after exhausting its candidate list or
    reaching the requested count of accepted records, whichever
    first": the loop of the scanner over the whole candidate list,
    left as soon as [remaining] records have been accepted. *)
Fixpoint scan_until (w : world) (addresses : list string) (remaining : nat)
    (c : client) (tr : trace) (contracts : list ContractData.t)
  : list ContractData.t * client * trace :=
  match addresses, remaining with
  | [], _ => (contracts, c, tr)
  | _ :: _, O => (contracts, c, tr)
  | address :: rest, S k =>
      let '(r, c, tr) := scan_address w c address tr in
      match r with
      | Accepted contract_data =>
          scan_until w rest k c tr (contracts ++ [contract_data])
      | Skipped _ => scan_until w rest remaining c tr contracts
      end
  end.

Definition get_verified_contracts (w : world) (c : client) (limit : Z) (tr : trace)
  : list ContractData.t * client * trace :=
  scan_until w (test_addresses c) (Z.to_nat limit) c tr [].

End Spec.

(** ** Observations on traces and stores *)

(** The address of a [getsourcecode] request: the first request of the
    loop body for a candidate address. *)
Definition explored_address (req : request) : option string :=
  match dict_get (params req) "action" with
  | Some a => if String.eqb a "getsourcecode" then dict_get (params req) "address" else None
  | None => None
  end.

(** The candidate addresses the scanner has looked at, in order. *)
Definition explored (tr : trace) : list string := omap explored_address tr.

(** The requests of a trace that went to one explorer. *)
Definition requests_to (api : string) (tr : trace) : list request :=
  filter (fun req => url req = api) tr.

(** Every call to the explorer at [api] fails, in one of the ways
    [_make_request] tells apart: the transport raises, the status is
    not 200, the body does not decode, or the status field is not '1'. *)
Definition fetch_fails (w : world) (api : string) : Prop :=
  ∀ (tr : trace) (ps : dict),
    match http_get w tr (Request api ps) with
    | HttpRaises => True
    | HttpResponse code body =>
        code ≠ 200 ∨ body = None
        ∨ ∃ data, body = Some data ∧ status data ≠ Some "1"
    end.

(** A row satisfies the filters of a query. *)
Definition matches (f : filters) (r : Sqlite.row) : bool :=
  let c := Sqlite.contract r in
  match f_chain f with
  | Some v => String.eqb (ContractData.chain c) v
  | None => true
  end
  && match f_name f with
     | Some v => Sqlite.like (String.append "%" (String.append v "%")) (ContractData.name c)
     | None => true
     end
  && match f_compiler_version f with
     | Some v => Sqlite.like (String.append "%" (String.append v "%"))
                   (ContractData.compiler_version c)
     | None => true
     end
  && match f_optimization f with
     | Some b => Bool.eqb (ContractData.optimization c) b
     | None => true
     end
  && match f_address f with
     | Some v => String.eqb (ContractData.address c) v
     | None => true
     end.

(** The conditions and the parameters of a filter record, in the order
    of the [if] blocks of [get_contracts]. *)
Definition opt_list {A B : Type} (o : option A) (f : A → B) : list B :=
  match o with Some v => [f v] | None => [] end.

Definition conds_of (f : filters) : list Sqlite.cond :=
  opt_list (f_chain f) (λ _, Sqlite.ChainEq)
  ++ opt_list (f_name f) (λ _, Sqlite.NameLike)
  ++ opt_list (f_compiler_version f) (λ _, Sqlite.CompilerVersionLike)
  ++ opt_list (f_optimization f) (λ _, Sqlite.OptimizationEq)
  ++ opt_list (f_address f) (λ _, Sqlite.AddressEq).

Definition params_of (f : filters) : list Sqlite.value :=
  opt_list (f_chain f) Sqlite.VText
  ++ opt_list (f_name f) (λ v, Sqlite.VText (String.append "%" (String.append v "%")))
  ++ opt_list (f_compiler_version f)
       (λ v, Sqlite.VText (String.append "%" (String.append v "%")))
  ++ opt_list (f_optimization f) (λ b : bool, Sqlite.VInt (if b then 1 else 0))
  ++ opt_list (f_address f) Sqlite.VText.

(** A row of the table carries one of the two hashes of a record. *)
Definition conflicts (c : ContractData.t) (r : Sqlite.row) : Prop :=
  ContractData.bytecode_hash (Sqlite.contract r) = ContractData.bytecode_hash c
  ∨ ContractData.source_hash (Sqlite.contract r) = ContractData.source_hash c.

(** The number of records of a list that carry a given hash. *)
Definition count_bytecode_hash (h : string) (l : list ContractData.t) : nat :=
  length (filter (fun x => ContractData.bytecode_hash x = h) l).

Definition count_source_hash (h : string) (l : list ContractData.t) : nat :=
  length (filter (fun x => ContractData.source_hash x = h) l).

(** ** Invariants of the deduplication state *)

(** A record against a pair of hash sets: none of its hashes is in
    them, or both are. *)
Definition fresh (b s : gset string) (x : ContractData.t) : Prop :=
  (ContractData.bytecode_hash x ∉ b) ∧ (ContractData.source_hash x ∉ s).

Definition recorded (b s : gset string) (x : ContractData.t) : Prop :=
  (ContractData.bytecode_hash x ∈ b) ∧ (ContractData.source_hash x ∈ s).

(** No bytecode hash and no source hash occurs twice in the list. *)
Definition hash_unique (l : list ContractData.t) : Prop :=
  NoDup (ContractData.bytecode_hash <$> l) ∧ NoDup (ContractData.source_hash <$> l).

(** The list under construction agrees with the hash sets. *)
Definition coherent (b s : gset string) (l : list ContractData.t) : Prop :=
  hash_unique l ∧ Forall (recorded b s) l.

Definition fresh_in (c : client) : ContractData.t -> Prop :=
  fresh (seen_bytecode_hashes c) (seen_source_hashes c).

Definition recorded_in (c : client) : ContractData.t -> Prop :=
  recorded (seen_bytecode_hashes c) (seen_source_hashes c).

(** The client after some steps of its scanner: the seen sets have
    grown, the configuration is the same. *)
Definition grows (c c' : client) : Prop :=
  seen_bytecode_hashes c ⊆ seen_bytecode_hashes c'
  ∧ seen_source_hashes c ⊆ seen_source_hashes c'
  ∧ chain_name c' = chain_name c
  ∧ api_url c' = api_url c
  ∧ api_key c' = api_key c
  ∧ chain_id c' = chain_id c.

(** ** Shapes of texts *)

(** The text starts with a whitespace character. *)
Definition starts_space (s : string) : bool :=
  match s with
  | EmptyString => false
  | String c _ => PyStr.isspace c
  end.

(** What [join] puts after the first word. *)
Definition tail_text (ws : list string) : string :=
  match ws with
  | [] => EmptyString
  | _ => String " " (PyStr.join " " ws)
  end.

(** The character [x] does not occur in the text. *)
Fixpoint no_x (s : string) : bool :=
  match s with
  | EmptyString => true
  | String c s' => negb (Ascii.eqb c "x") && no_x s'
  end.

Definition newline : string := String (ascii_of_nat 10) EmptyString.

(** A hexadecimal digit, and a text made of such digits: the deployed
    bytecode of the data model, without its prefix. *)
Definition hex_char (c : ascii) : bool :=
  let n := PyStr.code c in
  ((48 <=? n) && (n <=? 57)) || ((97 <=? n) && (n <=? 102))
  || ((65 <=? n) && (n <=? 70)).

Fixpoint hex_digits (s : string) : bool :=
  match s with
  | EmptyString => true
  | String c s' => hex_char c && hex_digits s'
  end.

(** ** Concrete worlds *)

Module Worlds.

Definition etherscan : string := "https://api.etherscan.io/api".
Definition basescan : string := "https://api.basescan.org/api".

Definition USDT : string := "0xdAC17F958D2ee523a2206206994597C13D831ec7".
Definition DAI : string := "0x6B175474E89094C44Da98b954EedeAC495271d0F".
Definition WETH : string := "0x4200000000000000000000000000000000000006".

(** A verified contract as an explorer serves it. *)
Record listing := Listing {
  l_api : string;
  l_address : string;
  l_name : string;
  l_source : string;
  l_code : string
}.

Fixpoint find_listing (table : list listing) (api addr : string) : option listing :=
  match table with
  | [] => None
  | e :: table' =>
      if String.eqb (l_api e) api && String.eqb (l_address e) addr
      then Some e else find_listing table' api addr
  end.

Definition ok (r : json_result) : http_outcome :=
  HttpResponse 200 (Some (ApiJson (Some "1") (Some "OK") r)).

Definition source_entry (e : listing) : dict :=
  [ ("SourceCode", l_source e); ("ABI", "[]"); ("ContractName", l_name e);
    ("CompilerVersion", "v0.8.19"); ("OptimizationUsed", "1"); ("Runs", "200");
    ("ConstructorArguments", "") ].

(** The explorers [live] answer; they serve the contracts of [table]
    and report an error for every other address. *)
Definition serve (live : list string) (table : list listing) (tr : trace)
    (req : request) : http_outcome :=
  if negb (existsb (String.eqb (url req)) live) then HttpRaises
  else
    match dict_get (params req) "action", dict_get (params req) "address" with
    | Some "ethsupply", _ => ok (RText "120000000")
    | Some "getsourcecode", Some addr =>
        match find_listing table (url req) addr with
        | Some e => ok (RList [source_entry e])
        | None => HttpResponse 200 (Some (ApiJson (Some "0") (Some "NOTOK") (RText "")))
        end
    | Some "eth_getCode", Some addr =>
        match find_listing table (url req) addr with
        | Some e => ok (RText (l_code e))
        | None => ok (RText "0x")
        end
    | _, _ => HttpResponse 404 None
    end.

Definition keys (k : string) : option string :=
  if String.eqb k "ETHERSCAN_API_KEY" then Some "E-KEY"
  else if String.eqb k "BASESCAN_API_KEY" then Some "B-KEY"
  else None.

Definition digits (s : string) : option Z :=
  if String.eqb s "200" then Some 200
  else if String.eqb s "0" then Some 0
  else None.

Definition make (live : list string) (table : list listing) : world :=
  World (serve live table) keys (fun _ => "2025-01-01T00:00:00") digits.

Definition ethereum : client := Client "ethereum" "E-KEY" etherscan 1 false 4 ∅ ∅.
Definition base : client := Client "base" "B-KEY" basescan 8453 false 4 ∅ ∅.

(** One token on Ethereum. *)
Definition one_token : world :=
  make [etherscan; basescan]
       [Listing etherscan USDT "TetherToken" "contract TetherToken {}" "0x6080"].

(** The same bytecode verified on both chains, under two sources. *)
Definition same_code : world :=
  make [etherscan; basescan]
       [ Listing etherscan USDT "TetherToken" "contract TetherToken {}" "0x6080";
         Listing basescan WETH "WETH9" "contract WETH9 {}" "0x6080" ].

(** The first candidate of Ethereum is not verified, the second is. *)
Definition second_verified : world :=
  make [etherscan; basescan]
       [Listing etherscan DAI "Dai" "contract Dai {}" "0x6001"].

(** The explorer of Ethereum is unreachable; Base serves one contract. *)
Definition ethereum_down : world :=
  make [basescan]
       [Listing basescan WETH "WETH9" "contract WETH9 {}" "0x6002"].

Definition both : manager := Manager [("ethereum", ethereum); ("base", base)] true.

Definition quiet : collaborators :=
  Collaborators (fun _ => "Smart Contract") true (fun _ _ => None)
                (fun _ => "2025-01-01 00:00:00").

Definition empty_db : ContractDatabase := Database true [] 0.

Definition ready : Web3LOCSystem := System (Some both) empty_db true.

Definition sample (bh sh : string) : ContractData.t :=
  ContractData.Make USDT "TetherToken" "contract TetherToken {}" "0x6080" "v0.8.19"
                    true 200 "" "[]" "" 0 "ethereum" 1 "2025-01-01T00:00:00" bh sh.

End Worlds.

(** ** The rest of [ContractDatabase] *)

(** [filter_contracts], called with the filters as keywords *)
Definition filter_contracts (db : ContractDatabase) (f : filters) : list Sqlite.row :=
  get_contracts db f None 0.

(** [get_contract_by_address]: [fetchone()] on
    [SELECT * FROM contracts WHERE address = ?], the matching row of the
    lowest [id]. *)
Definition get_contract_by_address (db : ContractDatabase) (address : string)
  : option Sqlite.row :=
  if negb (conn db) then None
  else List.find (fun r => String.eqb (ContractData.address (Sqlite.contract r)) address)
                 (contracts db).

(** [UPDATE contracts SET contract_summary = ?, updated_at =
    CURRENT_TIMESTAMP WHERE address = ?] *)
Definition update_summary_row (address summary now : string) (r : Sqlite.row)
  : Sqlite.row :=
  if String.eqb (ContractData.address (Sqlite.contract r)) address
  then Sqlite.Row (Sqlite.id r) (Sqlite.contract r) summary (Sqlite.created_at r) now
  else r.

(** [update_contract_summary] *)
Definition update_contract_summary (db : ContractDatabase) (address summary now : string)
  : bool * ContractDatabase :=
  if negb (conn db) then (false, db)
  else (true, Database (conn db)
                (map (update_summary_row address summary now) (contracts db))
                (last_id db)).

(** The [WHERE] clause of [search_contracts]. *)
Definition search_hit (term : string) (r : Sqlite.row) : bool :=
  Sqlite.like term (ContractData.name (Sqlite.contract r))
  || Sqlite.like term (ContractData.address (Sqlite.contract r))
  || Sqlite.like term (Sqlite.contract_summary r).

(** [search_contracts] *)
Definition search_contracts (db : ContractDatabase) (search_term : string)
  : list Sqlite.row :=
  if negb (conn db) then []
  else
    let term := String.append "%" (String.append search_term "%") in
    Sqlite.order_by_created_at_desc (List.filter (search_hit term) (contracts db)).

(** [SELECT k, COUNT ... GROUP BY k], read into a [dict]: the
    number of rows under each key that occurs. *)
Definition count_by `{Countable K} (key : Sqlite.row -> K) (rows : list Sqlite.row)
  : gmap K nat :=
  foldr (fun r m => <[key r := S (default O (m !! key r))]> m) ∅ rows.

(** [ORDER BY count DESC]: groups with equal counts stay in the order
    the engine produced them. *)
Fixpoint insert_by_count {K : Type} (g : K * nat) (sorted : list (K * nat))
  : list (K * nat) :=
  match sorted with
  | [] => [g]
  | g' :: sorted' =>
      if (snd g' <=? snd g)%nat then g :: sorted else g' :: insert_by_count g sorted'
  end.

Definition order_by_count_desc {K : Type} (groups : list (K * nat)) : list (K * nat) :=
  foldr insert_by_count [] groups.

(** The value of [get_statistics] on an open store. *)
Record statistics := Statistics {
  total_contracts : nat;
  by_chain : gmap string nat;
  optimization_usage : gmap bool nat;
  top_compilers : gmap string nat
}.

(** [get_statistics]: [None] is the empty [dict] of a closed store. *)
Definition get_statistics (db : ContractDatabase) : option statistics :=
  if negb (conn db) then None
  else
    let rows := contracts db in
    Some {|
      total_contracts := length rows;
      by_chain := count_by (fun r => ContractData.chain (Sqlite.contract r)) rows;
      optimization_usage :=
        count_by (fun r => ContractData.optimization (Sqlite.contract r)) rows;
      top_compilers :=
        list_to_map
          (firstn 10
             (order_by_count_desc
                (map_to_list
                   (count_by (fun r => ContractData.compiler_version (Sqlite.contract r))
                             rows))))
    |}.

(** The columns [export_to_csv] writes, in the order of [fieldnames]. *)
Definition export_data (r : Sqlite.row) : list (string * Sqlite.value) :=
  let c := Sqlite.contract r in
  [ ("address", Sqlite.VText (ContractData.address c));
    ("name", Sqlite.VText (ContractData.name c));
    ("chain", Sqlite.VText (ContractData.chain c));
    ("compiler_version", Sqlite.VText (ContractData.compiler_version c));
    ("optimization", Sqlite.VInt (if ContractData.optimization c then 1 else 0));
    ("runs", Sqlite.VInt (ContractData.runs c));
    ("block_number", Sqlite.VInt (ContractData.block_number c));
    ("verified_date", Sqlite.VText (ContractData.verified_date c));
    ("contract_summary", Sqlite.VText (Sqlite.contract_summary r));
    ("bytecode_hash", Sqlite.VText (ContractData.bytecode_hash c));
    ("source_hash", Sqlite.VText (ContractData.source_hash c)) ].

(** [export_to_csv]: the answer, and the rows handed to the CSV writer
    when the file is written.  [writable] tells whether the directory
    and the file can be made; without it the [except] clause answers
    [False]. *)
Definition export_to_csv (db : ContractDatabase) (f : filters) (writable : bool)
  : bool * option (list (list (string * Sqlite.value))) :=
  match get_contracts db f None 0 with
  | [] => (false, None)
  | rows => if writable then (true, Some (map export_data rows)) else (false, None)
  end.

(** ** The rest of [BlockchainClientManager] *)

Fixpoint clients_get (l : list (string * client)) (k : string) : option client :=
  match l with
  | [] => None
  | (k', c) :: l' => if String.eqb k' k then Some c else clients_get l' k
  end.

(** [get_client] *)
Definition get_client (w : world) (m : manager) (chain_name_arg : string) (tr : trace)
  : option client * manager * trace :=
  let '(m, tr) := if _initialized m then (m, tr) else manager_initialize w m tr in
  (clients_get (clients m) (PyStr.lower chain_name_arg), m, tr).

(** [get_available_chains] *)
Definition get_available_chains (m : manager) : list string := map fst (clients m).

(** [BlockchainClientManager.cleanup]: the sessions are closed and the
    clients dropped. *)
Definition manager_cleanup (m : manager) : manager := Manager [] false.

(** ** The rest of [Web3LOCSystem] *)

(** [Web3LOCSystem.cleanup] *)
Definition system_cleanup (s : Web3LOCSystem) : Web3LOCSystem :=
  System (option_map manager_cleanup (client_manager s)) (database s) (is_initialized s).

(** [Web3LOCSystem.search_contracts].  [filters] is [None] for an
    absent or empty [dict]; a [dict] that is not empty is read through
    the five keys [get_contracts] knows. *)
Definition system_search_contracts (s : Web3LOCSystem) (query : string)
    (f : option filters) : list Sqlite.row :=
  match f with
  | None => search_contracts (database s) query
  | Some f => filter_contracts (database s) f
  end.

(** [Web3LOCSystem.export_contracts]: [filename] is the name given or
    the one made from the clock; the filters are not passed on. *)
Definition export_contracts (s : Web3LOCSystem) (filename : string)
    (f : option filters) (writable : bool)
  : outcome string * option (list (list (string * Sqlite.value))) :=
  match export_to_csv (database s) no_filters writable with
  | (true, file) => (Return filename, file)
  | (false, file) => (Raise "Export failed", file)
  end.

(** ** Observations for the properties of these operations *)

(** The network answers a request the same way whatever was asked
    before. *)
Definition stationary (w : world) : Prop :=
  ∀ (tr tr' : trace) (req : request), http_get w tr req = http_get w tr' req.

(** The derived and the fixed fields of a record agree with its
    contents. *)
Definition well_formed (x : ContractData.t) : Prop :=
  ContractData.bytecode_hash x = _generate_bytecode_hash (ContractData.bytecode x)
  ∧ ContractData.source_hash x = _generate_source_hash (ContractData.source_code x)
  ∧ ContractData.source_code x ≠ ""
  ∧ ContractData.bytecode x ≠ ""
  ∧ ContractData.creation_txhash x = ""
  ∧ ContractData.block_number x = 0.

(** No two rows of a table share a bytecode hash or a source hash. *)
Definition table_unique (rows : list Sqlite.row) : Prop :=
  hash_unique (Sqlite.contract <$> rows).

(** The rows are in the order of [ORDER BY created_at DESC]. *)
Definition newest_to_oldest (rows : list Sqlite.row) : Prop :=
  Sorted (fun r1 r2 => String.leb (Sqlite.created_at r2) (Sqlite.created_at r1) = true)
         rows.

(** The letters of ASCII in lower case, as [LIKE] compares them. *)
Fixpoint ascii_fold (s : string) : string :=
  match s with
  | EmptyString => EmptyString
  | String c s' => String (Sqlite.fold_case c) (ascii_fold s')
  end.

(** The request goes to the explorer of the client, under its key. *)
Definition sent_by (c : client) (req : request) : Prop :=
  url req = api_url c ∧ dict_get (params req) "apikey" = Some (api_key c).

(** A record a scan of the client can return: well formed, of the
    client's chain, at one of the given addresses. *)
Definition record_of (name : string) (id : Z) (addresses : list string)
    (x : ContractData.t) : Prop :=
  well_formed x
  ∧ ContractData.chain x = name ∧ ContractData.chain_id x = id
  ∧ ContractData.address x ∈ addresses.

(** The address has gone through the loop of the scanner, and [c] is
    the client then or later. *)
Definition scanned (w : world) (c : client) (address : string) : Prop :=
  ∃ c0 tr0, grows (snd (fst (scan_address w c0 address tr0))) c.

(** Every client of the list has scanned its candidates within the
    limit. *)
Definition all_scanned (w : world) (limit : Z) (cs : list (string * client)) : Prop :=
  Forall (fun nc => Forall (scanned w (snd nc)) (slice_to (test_addresses (snd nc)) limit))
         cs.

(** An entry of the manager's [dict] as [initialize] makes it: under
    the name of its chain, the client built for that chain, with its
    session open. *)
Definition registered (w : world) (nc : string * client) : Prop :=
  ∃ c0, __init__ w (fst nc) = Return c0 ∧ snd nc = initialize c0
        ∧ ∃ tr0, fst (fst (test_connection w (initialize c0) tr0)) = true.

(** * Properties *)

(** ** SHA-256: constants and test vectors of the standard *)

Example K_ends : nth 0 Sha256.K 0 = 0x428a2f98 ∧ nth 63 Sha256.K 0 = 0xc67178f2.
Proof. split; reflexivity. Qed.

Example H0_ends : nth 0 Sha256.H0 0 = 0x6a09e667 ∧ nth 7 Sha256.H0 0 = 0x5be0cd19.
Proof. split; reflexivity. Qed.

Example sha256_empty_vector :
  Sha256.hexdigest [] = "e3b0c44298fc1c149afbf4c8996fb92427ae41e4649b934ca495991b7852b855".
Proof. vm_compute. reflexivity. Qed.

Example sha256_abc_vector :
  Sha256.hexdigest (PyStr.encode "abc")
  = "ba7816bf8f01cfea414140de5dae2223b00361a396177a9cb410ff61f20015ad".
Proof. vm_compute. reflexivity. Qed.

Example sha256_two_block_vector :
  Sha256.hexdigest (PyStr.encode "abcdbcdecdefdefgefghfghighijhijkijkljklmklmnlmnomnopnopq")
  = "248d6a61d20638b8e5c026930c3e6039a33ce45964ff2167f6ecedd419db06c1".
Proof. vm_compute. reflexivity. Qed.


(** ** Fetcher: state and trace *)

(** Case analysis on an HTTP status known to differ from 200. *)
Ltac not_200 code :=
  destruct code as [|code|code]; try done; do 8 (destruct code; try done).

Section Fetcher.
Variable w : world.

Lemma initialize_seen c :
  seen_bytecode_hashes (initialize c) = seen_bytecode_hashes c
  ∧ seen_source_hashes (initialize c) = seen_source_hashes c.
Proof. unfold initialize. destruct (session c); auto. Qed.

Lemma initialize_config c :
  chain_name (initialize c) = chain_name c
  ∧ api_url (initialize c) = api_url c
  ∧ api_key (initialize c) = api_key c
  ∧ chain_id (initialize c) = chain_id c.
Proof. unfold initialize. destruct (session c); auto. Qed.

Lemma initialize_session c : session (initialize c) = true.
Proof. unfold initialize. destruct (session c) eqn:E; auto. Qed.

(** A request always goes out, and is the one appended to the trace. *)
Lemma _make_request_eq c params tr :
  _make_request w c params tr
  = (match http_get w tr (Request (api_url c) (dict_set params "apikey" (api_key c))) with
     | HttpResponse 200 (Some data) =>
         if bool_decide (status data = Some "1") then Some data else None
     | _ => None
     end,
     initialize c,
     tr ++ [Request (api_url c) (dict_set params "apikey" (api_key c))]).
Proof.
  unfold _make_request. rewrite initialize_session.
  destruct (initialize_config c) as (_ & -> & -> & _).
  f_equal. f_equal. unfold try_request.
  destruct (http_get w tr _) as [|code body]; [done|].
  destruct (code =? 200) eqn:Hc.
  - apply Z.eqb_eq in Hc as ->.
    destruct body as [data|]; [|done].
    destruct (status data) as [s|] eqn:Hs.
    + destruct (String.eqb s "1") eqn:Hs1.
      * apply String.eqb_eq in Hs1 as ->. by rewrite bool_decide_true.
      * apply String.eqb_neq in Hs1. rewrite bool_decide_false; [done|congruence].
    + by rewrite bool_decide_false.
  - apply Z.eqb_neq in Hc.
    not_200 code.
Qed.

End Fetcher.

(** ** Scanner: the seen sets *)

Section Scanner.
Variable w : world.

Lemma _make_request_state c params tr :
  snd (fst (_make_request w c params tr)) = initialize c.
Proof. by rewrite _make_request_eq. Qed.

Lemma get_contract_source_state c address tr :
  snd (fst (get_contract_source w c address tr)) = initialize c.
Proof. unfold get_contract_source. by rewrite _make_request_eq. Qed.

Lemma get_contract_bytecode_state c address tr :
  snd (fst (get_contract_bytecode w c address tr)) = initialize c.
Proof. unfold get_contract_bytecode. by rewrite _make_request_eq. Qed.

Lemma initialize_idem c : initialize (initialize c) = initialize c.
Proof. unfold initialize at 1. by rewrite initialize_session. Qed.

(** The duplicate test is the disjunction of the two memberships. *)
Lemma _is_duplicate_contract_spec c bh sh :
  _is_duplicate_contract c bh sh = true
  ↔ bh ∈ seen_bytecode_hashes c ∨ sh ∈ seen_source_hashes c.
Proof.
  unfold _is_duplicate_contract.
  destruct (bool_decide_reflect (bh ∈ seen_bytecode_hashes c));
    destruct (bool_decide_reflect (sh ∈ seen_source_hashes c)); naive_solver.
Qed.

Lemma _is_duplicate_contract_false c bh sh :
  _is_duplicate_contract c bh sh = false
  ↔ (bh ∉ seen_bytecode_hashes c) ∧ (sh ∉ seen_source_hashes c).
Proof.
  unfold _is_duplicate_contract.
  destruct (bool_decide_reflect (bh ∈ seen_bytecode_hashes c));
    destruct (bool_decide_reflect (sh ∈ seen_source_hashes c)); naive_solver.
Qed.

(** What admission does to the seen sets, and which hashes an accepted
    record carries. *)
Lemma admit_contract_spec c address source_data bytecode tr r c' :
  admit_contract w c address source_data bytecode tr = (r, c') →
  if _is_duplicate_contract c (_generate_bytecode_hash bytecode)
       (_generate_source_hash (dict_get_default source_data "SourceCode" ""))
  then r = Skipped "duplicate" ∧ c' = c
  else c' = add_seen (_generate_bytecode_hash bytecode)
              (_generate_source_hash (dict_get_default source_data "SourceCode" "")) c
       ∧ match r with
         | Accepted x =>
             ContractData.bytecode_hash x = _generate_bytecode_hash bytecode
             ∧ ContractData.source_hash x
               = _generate_source_hash (dict_get_default source_data "SourceCode" "")
             ∧ ContractData.address x = address
         | Skipped _ => True
         end.
Proof.
  unfold admit_contract. intros H.
  destruct (_is_duplicate_contract c _ _).
  - by inversion H.
  - destruct (runs_of w source_data); inversion H; subst; auto.
Qed.

Lemma grows_refl c : grows c c.
Proof. unfold grows. set_solver. Qed.

Lemma grows_trans c1 c2 c3 : grows c1 c2 → grows c2 c3 → grows c1 c3.
Proof. unfold grows. intros (?&?&?&?&?&?) (?&?&?&?&?&?). repeat split; try congruence; set_solver. Qed.

Lemma grows_initialize c : grows c (initialize c).
Proof.
  unfold grows. destruct (initialize_seen c) as [-> ->].
  destruct (initialize_config c) as (-> & -> & -> & ->). set_solver.
Qed.

Lemma grows_add_seen bh sh c : grows c (add_seen bh sh c).
Proof. unfold grows, add_seen; simpl. set_solver. Qed.

Lemma recorded_grows c c' x : grows c c' → recorded_in c x → recorded_in c' x.
Proof. unfold grows, recorded_in, recorded. set_solver. Qed.

Lemma scan_address_spec c address tr r c' tr' :
  scan_address w c address tr = (r, c', tr') →
  grows c c'
  ∧ match r with
    | Accepted x => fresh_in c x ∧ recorded_in c' x ∧ ContractData.address x = address
    | Skipped _ => True
    end.
Proof.
  unfold scan_address.
  pose proof (get_contract_source_state c address tr) as Hs.
  destruct (get_contract_source w c address tr) as [[src c1] tr1]. simpl in Hs. subst c1.
  pose proof (grows_initialize c) as Hg.
  destruct src as [[source_data|]|]; try (intros [= <- <- <-]; by split).
  destruct (negb _ || negb _); try (intros [= <- <- <-]; by split).
  pose proof (get_contract_bytecode_state (initialize c) address tr1) as Hb.
  destruct (get_contract_bytecode w (initialize c) address tr1) as [[code c2] tr2].
  simpl in Hb. rewrite initialize_idem in Hb. subst c2.
  destruct code as [[|bytecode|[|]|]|]; try (intros [= <- <- <-]; by split).
  destruct (str_truthy bytecode); try (intros [= <- <- <-]; by split).
  destruct (admit_contract w (initialize c) address source_data bytecode tr2)
    as [r0 c3] eqn:Ha.
  intros [= <- <- <-].
  apply admit_contract_spec in Ha. simpl in Ha.
  destruct (_is_duplicate_contract (initialize c) _ _) eqn:Hd.
  - destruct Ha as [-> ->]. by split.
  - destruct Ha as [-> Hr].
    split; [eapply grows_trans; [exact Hg|apply grows_add_seen]|].
    destruct r0 as [x|]; [|done].
    destruct Hr as (Hbh & Hsh & Haddr).
    apply _is_duplicate_contract_false in Hd.
    destruct (initialize_seen c) as [E1 E2]. rewrite E1, E2 in Hd.
    unfold fresh_in, recorded_in, fresh, recorded, add_seen; simpl. rewrite Hbh, Hsh.
    repeat split; try tauto; set_solver.
Qed.

Lemma recorded_mono b s b' s' x :
  b ⊆ b' → s ⊆ s' → recorded b s x → recorded b' s' x.
Proof. unfold recorded. set_solver. Qed.

Lemma fresh_anti b s b' s' x :
  b ⊆ b' → s ⊆ s' → fresh b' s' x → fresh b s x.
Proof. unfold fresh. set_solver. Qed.

Lemma coherent_nil b s : coherent b s [].
Proof. repeat split; simpl; constructor. Qed.

Lemma coherent_mono b s b' s' l :
  coherent b s l → b ⊆ b' → s ⊆ s' → coherent b' s' l.
Proof.
  intros [Hu Hf] Hb Hs. split; [done|].
  eapply Forall_impl; [exact Hf|]. intros y. by apply recorded_mono.
Qed.

(** A fresh record extends a coherent list. *)
Lemma coherent_snoc b s b' s' l x :
  coherent b s l → b ⊆ b' → s ⊆ s' → fresh b s x → recorded b' s' x →
  coherent b' s' (l ++ [x]).
Proof.
  intros [[Hb Hs] Hf] Hsb Hss [Fb Fs] Hr.
  assert (Hnb : ContractData.bytecode_hash x ∉ ContractData.bytecode_hash <$> l).
  { intros Hin. apply list_elem_of_fmap in Hin as (y & Hy & Hin).
    rewrite Forall_forall in Hf. destruct (Hf y Hin) as [? _]. congruence. }
  assert (Hns : ContractData.source_hash x ∉ ContractData.source_hash <$> l).
  { intros Hin. apply list_elem_of_fmap in Hin as (y & Hy & Hin).
    rewrite Forall_forall in Hf. destruct (Hf y Hin) as [_ ?]. congruence. }
  repeat split.
  - rewrite fmap_app. apply NoDup_app. repeat split; [done| |apply NoDup_singleton].
    intros h Hh Hx. apply list_elem_of_singleton in Hx. by subst.
  - rewrite fmap_app. apply NoDup_app. repeat split; [done| |apply NoDup_singleton].
    intros h Hh Hx. apply list_elem_of_singleton in Hx. by subst.
  - apply Forall_app. split; [|by constructor].
    eapply Forall_impl; [exact Hf|]. intros y. by apply recorded_mono.
Qed.

Lemma scan_loop_spec addresses : ∀ c tr contracts l c' tr',
  scan_loop w addresses c tr contracts = (l, c', tr') →
  coherent (seen_bytecode_hashes c) (seen_source_hashes c) contracts →
  grows c c' ∧ coherent (seen_bytecode_hashes c') (seen_source_hashes c') l
  ∧ ∃ new, l = contracts ++ new
    ∧ Forall (fresh_in c) new
    ∧ (ContractData.address <$> new) `sublist_of` addresses.
Proof.
  induction addresses as [|a rest IH]; simpl; intros c tr contracts l c' tr' H Hc.
  - inversion H; subst. split; [apply grows_refl|]. split; [done|].
    exists []. by rewrite app_nil_r.
  - destruct (scan_address w c a tr) as [[r c1] tr1] eqn:Hstep.
    apply scan_address_spec in Hstep as [Hg Hr].
    destruct r as [x|why].
    + destruct Hr as (Hfresh & Hrec & Haddr).
      apply IH in H as (Hg' & Hc' & new & -> & Hnew & Hsub);
        [|destruct Hg as (?&?&_); by eapply coherent_snoc].
      split; [by eapply grows_trans|]. split; [done|].
      exists (x :: new). rewrite <- app_assoc. split; [done|]. split.
      * constructor; [done|]. eapply Forall_impl; [exact Hnew|].
        intros y [? ?]. destruct Hg as (?&?&_). unfold fresh_in, fresh. set_solver.
      * simpl. rewrite Haddr. by apply sublist_skip.
    + apply IH in H as (Hg' & Hc' & new & -> & Hnew & Hsub);
        [|destruct Hg as (?&?&_); by eapply coherent_mono].
      split; [by eapply grows_trans|]. split; [done|].
      exists new. split; [done|]. split.
      * eapply Forall_impl; [exact Hnew|].
        intros y [? ?]. destruct Hg as (?&?&_). unfold fresh_in, fresh. set_solver.
      * by apply sublist_cons.
Qed.

(** The records of one scan: pairwise distinct hashes, all recorded in
    the client, none of them seen before the scan. *)
Lemma get_verified_contracts_spec c limit tr l c' tr' :
  get_verified_contracts w c limit tr = (l, c', tr') →
  grows c c' ∧ coherent (seen_bytecode_hashes c') (seen_source_hashes c') l
  ∧ Forall (fresh_in c) l.
Proof.
  unfold get_verified_contracts. intros H.
  apply scan_loop_spec in H as (Hg & Hc & new & -> & Hnew & _);
    [|apply coherent_nil].
  simpl in *. auto.
Qed.

End Scanner.

(** ** Deduplicator *)

(** C1. The duplicate test of a client answers [true] exactly when the
    bytecode hash is in the seen-bytecode set or the source hash is in
    the seen-source set.  Hence, once a scan step has accepted a
    record, every later state of that client rejects a candidate that
    carries the same bytecode hash, whatever its source, and one that
    carries the same source hash, whatever its bytecode; the records a
    scan returns are accepted in that sense. *)
Theorem or_duplicate_detection :
  (∀ c bh sh,
      _is_duplicate_contract c bh sh = true
      ↔ bh ∈ seen_bytecode_hashes c ∨ sh ∈ seen_source_hashes c)
  ∧ (∀ w c address tr x c1 tr1,
        scan_address w c address tr = (Accepted x, c1, tr1) →
        ∀ c2, grows c1 c2 →
        ∀ w' address' source_data bytecode tr',
          _generate_bytecode_hash bytecode = ContractData.bytecode_hash x
          ∨ _generate_source_hash (dict_get_default source_data "SourceCode" "")
            = ContractData.source_hash x →
          admit_contract w' c2 address' source_data bytecode tr'
          = (Skipped "duplicate", c2))
  ∧ (∀ w c limit tr l c' tr',
        get_verified_contracts w c limit tr = (l, c', tr') →
        ∀ x, x ∈ l →
        ∀ w' address' source_data bytecode tr2,
          _generate_bytecode_hash bytecode = ContractData.bytecode_hash x
          ∨ _generate_source_hash (dict_get_default source_data "SourceCode" "")
            = ContractData.source_hash x →
          admit_contract w' c' address' source_data bytecode tr2
          = (Skipped "duplicate", c')).
Proof.
  assert (Hrej : ∀ c x w' address' source_data bytecode tr',
             recorded_in c x →
             _generate_bytecode_hash bytecode = ContractData.bytecode_hash x
             ∨ _generate_source_hash (dict_get_default source_data "SourceCode" "")
               = ContractData.source_hash x →
             admit_contract w' c address' source_data bytecode tr'
             = (Skipped "duplicate", c)).
  { intros c x w' address' source_data bytecode tr' [Hb Hs] Hm.
    unfold admit_contract.
    assert (_is_duplicate_contract c (_generate_bytecode_hash bytecode)
              (_generate_source_hash (dict_get_default source_data "SourceCode" ""))
            = true) as ->; [|done].
    apply _is_duplicate_contract_spec.
    destruct Hm as [-> | ->]; [by left | by right]. }
  split; [exact _is_duplicate_contract_spec|]. split.
  - intros w c address tr x c1 tr1 Hstep c2 Hg w' address' source_data bytecode tr' Hm.
    apply scan_address_spec in Hstep as (_ & _ & Hrec & _).
    eapply Hrej; [|exact Hm]. by eapply recorded_grows.
  - intros w c limit tr l c' tr' Hscan x Hx w' address' source_data bytecode tr2 Hm.
    apply get_verified_contracts_spec in Hscan as (_ & [_ Hrec] & _).
    rewrite Forall_forall in Hrec.
    eapply Hrej; [|exact Hm]. by apply Hrec.
Qed.

(** After the token of [Worlds.one_token] has been accepted, a
    candidate with its bytecode and another source is a duplicate. *)
Lemma or_duplicate_detection_witness :
  let run := get_verified_contracts Worlds.one_token Worlds.ethereum 5 [] in
  admit_contract Worlds.one_token (snd (fst run)) Worlds.DAI
    [("SourceCode", "contract Other {}")] "0X6080" []
  = (Skipped "duplicate", snd (fst run)).
Proof.
  intros run.
  refine (proj2 (proj2 or_duplicate_detection) Worlds.one_token Worlds.ethereum 5 []
            (fst (fst run)) (snd (fst run)) (snd run) _
            (Worlds.sample (_generate_bytecode_hash "0x6080")
                           (_generate_source_hash "contract TetherToken {}")) _
            Worlds.one_token Worlds.DAI _ "0X6080" [] _).
  - fold run. clearbody run. by destruct run as [[l c'] tr'].
  - vm_compute. apply list_elem_of_here.
  - left. vm_compute. reflexivity.
Defined.

(** ** Orchestrator: the global pass *)

Section GlobalDedup.

Lemma global_dedup_spec contracts : ∀ gb gs all uniq out gb' gs',
  global_dedup contracts gb gs uniq = (out, gb', gs') →
  coherent gb gs (all ++ uniq) →
  coherent gb' gs' (all ++ out) ∧ gb ⊆ gb' ∧ gs ⊆ gs'
  ∧ ∃ kept, out = uniq ++ kept ∧ kept `sublist_of` contracts.
Proof.
  induction contracts as [|x rest IH]; simpl; intros gb gs all uniq out gb' gs' H Hc.
  - inversion H; subst. split; [done|]. split; [done|]. split; [done|].
    exists []. by rewrite app_nil_r.
  - destruct (bool_decide_reflect (ContractData.bytecode_hash x ∉ gb)) as [Hb|Hb];
      destruct (bool_decide_reflect (ContractData.source_hash x ∉ gs)) as [Hs|Hs];
      simpl in H.
    2-4: apply IH with (all := all) in H as (? & ? & ? & kept & -> & ?); [|done];
         split; [done|]; split; [done|]; split; [done|];
         exists kept; split; [done|by apply sublist_cons].
    apply IH with (all := all) in H as (? & ? & ? & kept & -> & ?).
    + split; [done|]. split; [set_solver|]. split; [set_solver|].
      exists (x :: kept). rewrite <- app_assoc. split; [done|by apply sublist_skip].
    + rewrite app_assoc.
      eapply coherent_snoc; [exact Hc| | |by split|]; [set_solver..|].
      unfold recorded. set_solver.
Qed.

(** Records that are fresh and pairwise distinct all pass. *)
Lemma global_dedup_keeps_all contracts : ∀ gb gs uniq,
  hash_unique contracts → Forall (fresh gb gs) contracts →
  fst (fst (global_dedup contracts gb gs uniq)) = uniq ++ contracts.
Proof.
  induction contracts as [|x rest IH]; simpl; intros gb gs uniq Hu Hf.
  - by rewrite app_nil_r.
  - destruct Hu as [Hub Hus]. simpl in Hub, Hus.
    apply NoDup_cons in Hub as [Hxb Hub]. apply NoDup_cons in Hus as [Hxs Hus].
    apply Forall_cons in Hf as [[Fb Fs] Hf].
    rewrite !bool_decide_true by done. simpl.
    rewrite IH; [by rewrite <- app_assoc|by split|].
    rewrite Forall_forall in Hf. apply Forall_forall. intros y Hy.
    destruct (Hf y Hy) as [Gb Gs]. split.
    + intros Hin. apply elem_of_union in Hin as [Hin|Hin]; [|done].
      apply elem_of_singleton in Hin. apply Hxb.
      apply list_elem_of_fmap. by exists y.
    + intros Hin. apply elem_of_union in Hin as [Hin|Hin]; [|done].
      apply elem_of_singleton in Hin. apply Hxs.
      apply list_elem_of_fmap. by exists y.
Qed.

Lemma chains_loop_spec w limit cs : ∀ tr all gb gs out cs' tr',
  chains_loop w cs limit tr all gb gs = (out, cs', tr') →
  coherent gb gs all →
  hash_unique out ∧ ∃ more, out = all ++ more.
Proof.
  induction cs as [|[chain c] rest IH]; simpl; intros tr all gb gs out cs' tr' H Hc.
  - inversion H; subst. split; [apply Hc|]. exists []. by rewrite app_nil_r.
  - destruct (get_verified_contracts w c limit tr) as [[contracts c1] tr1].
    destruct (global_dedup contracts gb gs []) as [[uniq gb1] gs1] eqn:Hd.
    destruct (chains_loop w rest limit tr1 (all ++ uniq) gb1 gs1)
      as [[out1 rest1] tr2] eqn:Hl.
    inversion H; subst.
    apply global_dedup_spec with (all := all) in Hd as (Hc1 & _);
      [|by rewrite app_nil_r].
    apply IH in Hl as (Hu & more & ->); [|done].
    split; [done|]. exists (uniq ++ more). by rewrite app_assoc.
Qed.

Lemma length_filter_none {A : Type} (P : A → Prop) `{∀ x, Decision (P x)} (l : list A) :
  (∀ z, z ∈ l → ¬ P z) → length (filter P l) = 0%nat.
Proof.
  induction l as [|y l IH]; intros Hl; [done|].
  rewrite filter_cons_False by (apply Hl, list_elem_of_here).
  apply IH. intros z Hz. apply Hl. by apply list_elem_of_further.
Qed.

Lemma count_bytecode_hash_unique l x :
  NoDup (ContractData.bytecode_hash <$> l) → x ∈ l →
  count_bytecode_hash (ContractData.bytecode_hash x) l = 1%nat.
Proof.
  unfold count_bytecode_hash.
  induction l as [|y l IH]; simpl; intros Hn Hx; [by apply elem_of_nil in Hx|].
  apply NoDup_cons in Hn as [Hy Hn].
  apply elem_of_cons in Hx as [->|Hx].
  - rewrite filter_cons_True by done. simpl. f_equal.
    apply length_filter_none. intros z Hz Heq. apply Hy. apply list_elem_of_fmap. by exists z.
  - rewrite filter_cons_False; [by apply IH|].
    intros Heq. apply Hy. apply list_elem_of_fmap. by exists x.
Qed.

Lemma count_source_hash_unique l x :
  NoDup (ContractData.source_hash <$> l) → x ∈ l →
  count_source_hash (ContractData.source_hash x) l = 1%nat.
Proof.
  unfold count_source_hash.
  induction l as [|y l IH]; simpl; intros Hn Hx; [by apply elem_of_nil in Hx|].
  apply NoDup_cons in Hn as [Hy Hn].
  apply elem_of_cons in Hx as [->|Hx].
  - rewrite filter_cons_True by done. simpl. f_equal.
    apply length_filter_none. intros z Hz Heq. apply Hy. apply list_elem_of_fmap. by exists z.
  - rewrite filter_cons_False; [by apply IH|].
    intros Heq. apply Hy. apply list_elem_of_fmap. by exists x.
Qed.

(** The merged list of two chains starts with all the records of the
    first one. *)
Lemma two_chains_merge w limit tr n1 c1 n2 c2 i :
  ∃ kept,
    fst (fst (get_all_verified_contracts w (Manager [(n1, c1); (n2, c2)] i) limit tr))
    = fst (fst (get_verified_contracts w c1 limit tr)) ++ kept
    ∧ kept `sublist_of`
        fst (fst (get_verified_contracts w c2 limit
                    (snd (get_verified_contracts w c1 limit tr)))).
Proof.
  unfold get_all_verified_contracts. simpl.
  destruct (get_verified_contracts w c1 limit tr) as [[l1 c1'] tr1] eqn:H1.
  apply get_verified_contracts_spec in H1 as (_ & [Hu1 _] & _).
  assert (Hf : Forall (fresh ∅ ∅) l1)
    by (apply Forall_forall; intros y _; split; set_solver).
  pose proof (global_dedup_keeps_all l1 ∅ ∅ [] Hu1 Hf) as Hk.
  destruct (global_dedup l1 ∅ ∅ []) as [[u1 gb1] gs1] eqn:Hd1.
  simpl in Hk. subst u1. simpl.
  destruct (get_verified_contracts w c2 limit tr1) as [[l2 c2'] tr2].
  destruct (global_dedup l2 gb1 gs1 []) as [[u2 gb2] gs2] eqn:Hd2. simpl.
  exists u2. split; [done|].
  apply global_dedup_spec with (all := []) in Hd1 as (Hc & _);
    [|apply coherent_nil].
  apply global_dedup_spec with (all := l1) in Hd2 as (_ & _ & _ & kept & -> & Hs).
  - done.
  - by rewrite app_nil_r.
Qed.

(** What the constructor builds. *)
Lemma __init___spec w chain c :
  __init__ w chain = Return c →
  chain_name c = PyStr.lower chain ∧ session c = false
  ∧ seen_bytecode_hashes c = ∅ ∧ seen_source_hashes c = ∅
  ∧ ((chain_name c = "ethereum" ∧ api_url c = "https://api.etherscan.io/api")
     ∨ (chain_name c = "base" ∧ api_url c = "https://api.basescan.org/api")).
Proof.
  unfold __init__.
  destruct (String.eqb_spec (PyStr.lower chain) "ethereum") as [He|He].
  - destruct (getenv w "ETHERSCAN_API_KEY") as [k|]; [|done].
    destruct (str_truthy k); [|done]. intros [= <-]. cbn. rewrite He. auto 10.
  - destruct (String.eqb_spec (PyStr.lower chain) "base") as [Hb|Hb]; [|done].
    destruct (getenv w "BASESCAN_API_KEY") as [k|]; [|done].
    destruct (str_truthy k); [|done]. intros [= <-]. cbn. rewrite Hb. auto 10.
Qed.

(** One chain of the initialization adds at most its own client, at the
    end of the dictionary when the key is new. *)
Lemma initialize_chain_keys w chain cs tr :
  ¬ chain ∈ (fst <$> cs) →
  fst <$> fst (initialize_chain w chain cs tr) = fst <$> cs
  ∨ fst <$> fst (initialize_chain w chain cs tr) = (fst <$> cs) ++ [chain].
Proof.
  intros Hnew. unfold initialize_chain.
  destruct (__init__ w chain) as [c|]; [|by left].
  destruct (test_connection w (initialize c) tr) as [[[|] c'] tr']; [|by left].
  right. cbn [fst]. clear -Hnew.
  induction cs as [|[k' c0] cs IH]; [done|].
  cbn [clients_set fmap list_fmap fst] in *.
  destruct (String.eqb_spec k' chain) as [->|Hne].
  - exfalso. apply Hnew. apply list_elem_of_here.
  - cbn [fmap list_fmap fst app]. f_equal. apply IH.
    intros Hin. apply Hnew. by apply list_elem_of_further.
Qed.

(** A manager initialized from scratch holds clients for Ethereum and
    Base at most, in this order. *)
Lemma manager_initialize_chains w tr :
  fst <$> clients (fst (manager_initialize w (Manager [] false) tr))
  `sublist_of` supported_chains.
Proof.
  unfold manager_initialize, supported_chains. cbn [_initialized clients fold_left fst snd].
  destruct (initialize_chain w "ethereum" [] tr) as [cs1 tr1] eqn:H1.
  pose proof (initialize_chain_keys w "ethereum" [] tr) as K1.
  rewrite H1 in K1. cbn [fst snd] in *.
  destruct (initialize_chain w "base" cs1 tr1) as [cs2 tr2] eqn:H2.
  pose proof (initialize_chain_keys w "base" cs1 tr1) as K2.
  rewrite H2 in K2. cbn [fst snd clients] in *.
  assert (K1' : cs1.*1 = [] ∨ cs1.*1 = ["ethereum"]).
  { apply K1. intros Hin. by apply elem_of_nil in Hin. }
  clear K1. destruct K1' as [K1|K1]; rewrite K1 in K2.
  - destruct K2 as [->| ->].
    + intros Hin. by apply elem_of_nil in Hin.
    + apply sublist_nil_l.
    + apply sublist_cons, sublist_skip, sublist_nil.
  - destruct K2 as [->| ->].
    + intros Hin. apply list_elem_of_singleton in Hin. discriminate Hin.
    + apply sublist_skip, sublist_nil_l.
    + done.
Qed.

End GlobalDedup.

(** C2. In the merged list of [get_all_verified_contracts] no two
    records share a bytecode hash and no two share a source hash.  With
    the two chains the manager supports, when each chain's scan returns
    a record with the same bytecode hash (or the same source hash), the
    merged list holds exactly one record with that hash: the record of
    the chain that is scanned first. *)
Theorem cross_chain_global_dedup :
  (∀ w m limit tr,
      hash_unique (fst (fst (get_all_verified_contracts w m limit tr))))
  ∧ (∀ w limit tr n1 c1 n2 c2 i x1 x2,
        let run1 := get_verified_contracts w c1 limit tr in
        let run2 := get_verified_contracts w c2 limit (snd run1) in
        let merged :=
          fst (fst (get_all_verified_contracts w (Manager [(n1, c1); (n2, c2)] i) limit tr)) in
        x1 ∈ fst (fst run1) → x2 ∈ fst (fst run2) →
        x1 ∈ merged
        ∧ (ContractData.bytecode_hash x1 = ContractData.bytecode_hash x2 →
           count_bytecode_hash (ContractData.bytecode_hash x2) merged = 1%nat)
        ∧ (ContractData.source_hash x1 = ContractData.source_hash x2 →
           count_source_hash (ContractData.source_hash x2) merged = 1%nat))
  ∧ (∀ w tr,
        fst <$> clients (fst (manager_initialize w (Manager [] false) tr))
        `sublist_of` supported_chains).
Proof.
  assert (Hall : ∀ w m limit tr,
             hash_unique (fst (fst (get_all_verified_contracts w m limit tr)))).
  { intros w m limit tr. unfold get_all_verified_contracts.
    destruct (chains_loop w (clients m) limit tr [] ∅ ∅) as [[all cs] tr'] eqn:H.
    simpl. apply chains_loop_spec in H as [Hu _]; [done|apply coherent_nil]. }
  split; [exact Hall|]. split; [|exact manager_initialize_chains].
  intros w limit tr n1 c1 n2 c2 i x1 x2 run1 run2 merged H1 H2.
  destruct (Hall w (Manager [(n1, c1); (n2, c2)] i) limit tr) as [Hb Hs].
  destruct (two_chains_merge w limit tr n1 c1 n2 c2 i) as (kept & Hm & _).
  fold run1 in Hm. fold merged in Hm, Hb, Hs.
  assert (Hin : x1 ∈ merged) by (rewrite Hm; apply elem_of_app; by left).
  split; [done|]. split; intros <-.
  - by apply count_bytecode_hash_unique.
  - by apply count_source_hash_unique.
Qed.

(** The token of Ethereum and the wrapped ether of Base share their
    bytecode in [Worlds.same_code]: one record with that hash is kept. *)
Lemma cross_chain_global_dedup_witness :
  count_bytecode_hash (_generate_bytecode_hash "0x6080")
    (fst (fst (get_all_verified_contracts Worlds.same_code Worlds.both 5 []))) = 1%nat.
Proof.
  refine (proj1 (proj2 (proj1 (proj2 cross_chain_global_dedup) Worlds.same_code 5 []
            "ethereum" Worlds.ethereum "base" Worlds.base true
            (Worlds.sample (_generate_bytecode_hash "0x6080")
                           (_generate_source_hash "contract TetherToken {}"))
            (ContractData.Make Worlds.WETH "WETH9" "contract WETH9 {}" "0x6080" "v0.8.19"
               true 200 "" "[]" "" 0 "base" 8453 "2025-01-01T00:00:00"
               (_generate_bytecode_hash "0x6080")
               (_generate_source_hash "contract WETH9 {}")) _ _)) _).
  - vm_compute. apply list_elem_of_here.
  - vm_compute. apply list_elem_of_here.
  - reflexivity.
Defined.

(** ** ContractStore *)

Section Store.

Lemma select_by_hash_conflict rows c r :
  r ∈ rows → conflicts c r →
  is_Some (Sqlite.select_by_hash rows (ContractData.bytecode_hash c)
             (ContractData.source_hash c)).
Proof.
  unfold Sqlite.select_by_hash.
  induction rows as [|r' rows IH]; intros Hin Hc; [by apply elem_of_nil in Hin|].
  simpl. destruct (_ || _) eqn:E; [by eexists|].
  apply elem_of_cons in Hin as [->|Hin]; [|by apply IH].
  apply orb_false_elim in E as [E1 E2].
  apply String.eqb_neq in E1, E2. by destruct Hc.
Qed.

Lemma select_by_hash_none rows c :
  (∀ r, r ∈ rows → ¬ conflicts c r) →
  Sqlite.select_by_hash rows (ContractData.bytecode_hash c)
    (ContractData.source_hash c) = None
  ∧ Sqlite.unique_ok rows c = true.
Proof.
  unfold Sqlite.select_by_hash.
  induction rows as [|r rows IH]; intros Hno; [done|].
  simpl.
  assert (Hr : ¬ conflicts c r) by (apply Hno, list_elem_of_here).
  destruct (IH (λ r' Hr', Hno r' (list_elem_of_further _ _ _ Hr'))) as [-> ->].
  unfold conflicts in Hr.
  destruct (String.eqb_spec (ContractData.bytecode_hash (Sqlite.contract r))
              (ContractData.bytecode_hash c)); [tauto|].
  destruct (String.eqb_spec (ContractData.source_hash (Sqlite.contract r))
              (ContractData.source_hash c)); [tauto|].
  done.
Qed.

(** An insertion that succeeds appends one row that carries the record. *)
Lemma insert_contract_true db c summary now db' :
  insert_contract db c summary now = (true, db') →
  contracts db' = contracts db ++ [Sqlite.Row (last_id db + 1) c summary now now]
  ∧ conn db' = true.
Proof.
  unfold insert_contract, Sqlite.insert.
  destruct (conn db) eqn:Hc; simpl; [|done].
  destruct (Sqlite.select_by_hash _ _ _); [done|].
  destruct (_ && _); [|done].
  destruct (Sqlite.unique_ok _ _); [|done].
  intros [= <-]. by simpl.
Qed.

Lemma insert_contract_false db c summary now db' :
  insert_contract db c summary now = (false, db') → db' = db.
Proof.
  unfold insert_contract, Sqlite.insert.
  destruct (conn db); simpl; [|by intros [= <-]].
  destruct (Sqlite.select_by_hash _ _ _); [by intros [= <-]|].
  destruct (_ && _); [|by intros [= <-]].
  destruct (Sqlite.unique_ok _ _); [done|by intros [= <-]].
Qed.

Lemma insert_contract_conflict db c summary now r :
  r ∈ contracts db → conflicts c r → insert_contract db c summary now = (false, db).
Proof.
  intros Hin Hc. unfold insert_contract.
  destruct (conn db); simpl; [|done].
  by destruct (select_by_hash_conflict _ _ _ Hin Hc) as [r' ->].
Qed.

End Store.

(** C3. When a row of the table already carries the bytecode hash or
    the source hash of a record, [insert_contract] answers [false] and
    leaves the store as it was.  Two insertions of one record in a row
    add at most one row: the second one answers [false] and changes
    nothing; on an open store that holds neither hash, with the record's
    integers in the range of the engine, the first one answers [true]
    and adds exactly the row of the record. *)
Theorem insert_contract_idempotent :
  (∀ db c summary now r,
      r ∈ contracts db → conflicts c r →
      insert_contract db c summary now = (false, db))
  ∧ (∀ db c s1 n1 s2 n2,
        let first := insert_contract db c s1 n1 in
        let second := insert_contract (snd first) c s2 n2 in
        fst second = false ∧ snd second = snd first
        ∧ (if fst first
           then contracts (snd first)
                = contracts db ++ [Sqlite.Row (last_id db + 1) c s1 n1 n1]
           else snd first = db))
  ∧ (∀ db c s1 n1,
        conn db = true →
        (∀ r, r ∈ contracts db → ¬ conflicts c r) →
        Sqlite.fits_int64 (ContractData.runs c) = true →
        Sqlite.fits_int64 (ContractData.block_number c) = true →
        Sqlite.fits_int64 (ContractData.chain_id c) = true →
        fst (insert_contract db c s1 n1) = true).
Proof.
  split; [exact insert_contract_conflict|]. split.
  - intros db c s1 n1 s2 n2 first second. subst second.
    destruct first as [b1 db1] eqn:H1. subst first. simpl.
    destruct b1.
    + destruct (insert_contract_true _ _ _ _ _ H1) as [Hrows Hconn].
      rewrite (insert_contract_conflict db1 c s2 n2
                 (Sqlite.Row (last_id db + 1) c s1 n1 n1)).
      * done.
      * rewrite Hrows. apply elem_of_app. right. apply list_elem_of_here.
      * by left.
    + apply insert_contract_false in H1 as H1'. subst db1.
      destruct (insert_contract db c s2 n2) as [b2 db2] eqn:H2.
      assert (b2 = false) as ->.
      { revert H1 H2. unfold insert_contract, Sqlite.insert.
        destruct (conn db); simpl; [|by intros _ [= <-]].
        destruct (Sqlite.select_by_hash _ _ _); [by intros _ [= <-]|].
        destruct (_ && _); [|by intros _ [= <-]].
        destruct (Sqlite.unique_ok _ _); [done|by intros _ [= <-]]. }
      apply insert_contract_false in H2. by subst.
  - intros db c s1 n1 Hconn Hfresh Hr Hb Hi.
    unfold insert_contract, Sqlite.insert. rewrite Hconn. simpl.
    destruct (select_by_hash_none _ _ Hfresh) as [-> ->].
    by rewrite Hr, Hb, Hi.
Qed.

(** The token enters the empty store once. *)
Lemma insert_contract_idempotent_witness :
  let c := Worlds.sample "b1" "s1" in
  let first := insert_contract Worlds.empty_db c "a token" "t1" in
  fst first = true
  ∧ insert_contract (snd first) c "a token" "t2" = (false, snd first).
Proof.
  intros c first. split.
  - refine (proj2 (proj2 insert_contract_idempotent) Worlds.empty_db c "a token" "t1"
              _ _ _ _ _); try reflexivity.
    intros r Hr. by apply elem_of_nil in Hr.
  - refine (proj1 insert_contract_idempotent (snd first) c "a token" "t2"
              (Sqlite.Row 1 c "a token" "t1" "t1") _ _).
    + vm_compute. apply list_elem_of_here.
    + by left.
Defined.

(** ** Queries *)

Section Query.

Ltac case_filters f :=
  destruct f as [[chain|] [name|] [version|] [opt|] [addr|]].

(** The statement without [LIMIT] and [OFFSET] parses to the
    conditions of the filters. *)
Lemma build_query_plain f :
  Sqlite.parse (fst (build_query f None 0)) = Some (Sqlite.Select (conds_of f) false false)
  ∧ snd (build_query f None 0) = params_of f.
Proof. case_filters f; split; vm_compute; reflexivity. Qed.

(** With an [OFFSET] clause and no [LIMIT] clause the statement is
    refused by the parser. *)
Lemma build_query_offset_only f offset :
  offset ≠ 0 → Sqlite.parse (fst (build_query f None offset)) = None.
Proof.
  intros Ho. unfold build_query.
  apply Z.eqb_neq in Ho. rewrite Ho.
  case_filters f; vm_compute; reflexivity.
Qed.

Lemma build_query_limit_zero f offset :
  build_query f (Some 0) offset = build_query f None offset.
Proof. reflexivity. Qed.

Lemma optimization_eqb (a b : bool) :
  ((if a then 1 else 0) =? (if b then 1 else 0)) = Bool.eqb a b.
Proof. by destruct a, b. Qed.

Lemma eval_where_matches f r :
  Sqlite.eval_where (conds_of f) (params_of f) r = Some (matches f r).
Proof.
  case_filters f; unfold matches; simpl;
    rewrite ?optimization_eqb, ?andb_true_r, ?andb_true_l, ?andb_assoc;
    reflexivity.
Qed.

Lemma where_rows_matches f rows :
  Sqlite.where_rows (conds_of f) (params_of f) rows
  = Some (List.filter (matches f) rows).
Proof.
  induction rows as [|r rows IH]; [done|].
  simpl. rewrite eval_where_matches, IH. by destruct (matches f r).
Qed.

Lemma params_of_bindable f : forallb Sqlite.bindable (params_of f) = true.
Proof. case_filters f; try destruct opt; reflexivity. Qed.

Lemma params_of_length f : length (params_of f) = length (conds_of f).
Proof. case_filters f; reflexivity. Qed.

End Query.

(** C10. A query with a nonzero offset and no limit returns the empty
    list: its statement has an [OFFSET] clause and no [LIMIT] clause,
    the engine refuses it, and the error is turned into an empty
    result.  A limit of 0 is treated as no limit: on an open store and
    with offset 0 the query returns all the rows that satisfy the
    filters, newest first. *)
Theorem get_contracts_offset_without_limit :
  (∀ db f offset, offset ≠ 0 →
      Sqlite.parse (fst (build_query f None offset)) = None
      ∧ get_contracts db f None offset = [])
  ∧ (∀ db f offset,
        get_contracts db f (Some 0) offset = get_contracts db f None offset)
  ∧ (∀ db f, conn db = true →
        get_contracts db f (Some 0) 0
        = Sqlite.order_by_created_at_desc (List.filter (matches f) (contracts db))).
Proof.
  split; [|split].
  - intros db f offset Ho.
    pose proof (build_query_offset_only f offset Ho) as Hp.
    split; [done|].
    unfold get_contracts. destruct (conn db); simpl; [|done].
    destruct (build_query f None offset) as [query ps]. simpl in Hp.
    unfold Sqlite.execute_select. by rewrite Hp.
  - intros db f offset. unfold get_contracts. by rewrite build_query_limit_zero.
  - intros db f Hc. unfold get_contracts. rewrite Hc, build_query_limit_zero.
    destruct (build_query_plain f) as [Hp Hps].
    destruct (build_query f None 0) as [query ps]. simpl in Hp, Hps. subst ps.
    change (negb true) with false. cbv iota.
    unfold Sqlite.execute_select. rewrite Hp. simpl.
    rewrite params_of_bindable. simpl.
    rewrite <- params_of_length, Nat.add_0_r, Nat.add_0_r, Nat.eqb_refl. simpl.
    rewrite firstn_all, where_rows_matches.
    by rewrite skipn_all.
Qed.

(** The second page of a store with one row, asked without a limit. *)
Lemma get_contracts_offset_without_limit_witness :
  let db := Database true [Sqlite.Row 1 (Worlds.sample "b1" "s1") "" "t1" "t1"] 1 in
  get_contracts db no_filters None 1 = []
  ∧ get_contracts db no_filters (Some 0) 0
    = [Sqlite.Row 1 (Worlds.sample "b1" "s1") "" "t1" "t1"].
Proof.
  intros db. split.
  - refine (proj2 (proj1 get_contracts_offset_without_limit db no_filters 1 _)).
    discriminate.
  - refine (eq_trans (proj2 (proj2 get_contracts_offset_without_limit) db no_filters _) _);
      reflexivity.
Defined.

(** ** ContentHasher *)

Section BytecodeHash.

Lemma lower_app s t : PyStr.lower (s +:+ t) = PyStr.lower s +:+ PyStr.lower t.
Proof. induction s as [|c s IH]; simpl; [done|by rewrite IH]. Qed.

(** A leading [0x] is removed. *)
Lemma replace_0x_prefix s : PyStr.replace "0x" "" ("0x" +:+ s) = PyStr.replace "0x" "" s.
Proof. unfold PyStr.replace. cbn. by destruct s. Qed.

(** A text without the letter [x] has no occurrence of [0x]. *)
Lemma replace_0x_no_x s : no_x s = true → PyStr.replace "0x" "" s = s.
Proof.
  unfold PyStr.replace.
  induction s as [|c s IH]; cbn -[Ascii.eqb]; [done|].
  intros H. apply andb_prop in H as [Hc Hs]. rewrite IH by done.
  destruct (Ascii.eqb "0" c) eqn:E0; [|done].
  destruct s as [|d s]; [done|].
  cbn -[Ascii.eqb] in Hs. apply andb_prop in Hs as [Hd _].
  destruct (Ascii.eqb_spec "x" d) as [<-|]; [done|done].
Qed.

(** Letter case and a leading [0x] or [0X] do not change the hash. *)
Lemma _generate_bytecode_hash_case s t :
  PyStr.lower s = PyStr.lower t → _generate_bytecode_hash s = _generate_bytecode_hash t.
Proof. unfold _generate_bytecode_hash. by intros ->. Qed.

Lemma _generate_bytecode_hash_prefix s :
  _generate_bytecode_hash ("0x" +:+ s) = _generate_bytecode_hash s
  ∧ _generate_bytecode_hash ("0X" +:+ s) = _generate_bytecode_hash s.
Proof.
  unfold _generate_bytecode_hash. rewrite !lower_app.
  change (PyStr.lower "0x") with "0x". change (PyStr.lower "0X") with "0x".
  by rewrite replace_0x_prefix.
Qed.

(** On a bytecode whose digits hold no [x], with or without the
    prefix, the code computes the hash of the specification. *)
Lemma _generate_bytecode_hash_hex s :
  no_x (PyStr.lower s) = true →
  _generate_bytecode_hash s = Spec.bytecode_hash s
  ∧ _generate_bytecode_hash ("0x" +:+ s) = Spec.bytecode_hash ("0x" +:+ s).
Proof.
  intros H. destruct (_generate_bytecode_hash_prefix s) as [-> _].
  unfold _generate_bytecode_hash, Spec.bytecode_hash.
  rewrite lower_app. change (PyStr.lower "0x") with "0x".
  rewrite replace_0x_no_x by done.
  unfold sha256_hexdigest.
  split; do 2 f_equal; unfold PyStr.removeprefix.
  - destruct (PyStr.lower s) as [|a [|b t]] eqn:E; cbn -[Ascii.eqb].
    + done.
    + by destruct (Ascii.eqb "0" a).
    + destruct (Ascii.eqb_spec "0" a) as [<-|]; [|done].
      destruct (Ascii.eqb_spec "x" b) as [<-|]; [|done].
      cbn in H. done.
Qed.

Lemma _generate_bytecode_hash_empty :
  _generate_bytecode_hash ""
  = "e3b0c44298fc1c149afbf4c8996fb92427ae41e4649b934ca495991b7852b855".
Proof. vm_compute. reflexivity. Qed.

End BytecodeHash.

(** Outside the hexadecimal texts the code and the wording part: the
    code removes every occurrence of [0x], the wording a prefix. *)
Remark bytecode_hash_inner_0x :
  _generate_bytecode_hash "0x0x60" = sha256_hexdigest "60"
  ∧ Spec.bytecode_hash "0x0x60" = sha256_hexdigest "0x60"
  ∧ _generate_bytecode_hash "0x0x60" ≠ Spec.bytecode_hash "0x0x60".
Proof.
  repeat split; try (vm_compute; reflexivity).
  intros H. vm_compute in H. discriminate H.
Qed.

Lemma hex_char_lower c :
  hex_char c = true → Ascii.eqb (PyStr.lower_char c) "x" = false.
Proof.
  destruct c as [[|] [|] [|] [|] [|] [|] [|] [|]]; vm_compute; congruence.
Qed.

Lemma hex_digits_no_x s : hex_digits s = true → no_x (PyStr.lower s) = true.
Proof.
  induction s as [|c s IH]; [done|].
  cbn [hex_digits PyStr.lower no_x]. intros H.
  apply andb_prop in H as [Hc Hs].
  by rewrite (hex_char_lower c Hc), IH.
Qed.

(** C4. The bytecode hash is not, for every bytecode string, the
    digest of the lower-cased string with a [0x] prefix stripped: the
    comment of the method says "Remove 0x prefix if present", and
    [replace] removes every occurrence of [0x].  The text [600x60] is
    hashed as [6060], and the text [0x0x60] as [60], where stripping
    the prefix leaves [600x60] and [0x60]. *)
Theorem bytecode_hash_removes_every_0x :
  _generate_bytecode_hash "600x60" = sha256_hexdigest "6060"
  ∧ Spec.bytecode_hash "600x60" = sha256_hexdigest "600x60"
  ∧ _generate_bytecode_hash "600x60" ≠ Spec.bytecode_hash "600x60"
  ∧ _generate_bytecode_hash "0x0x60" = sha256_hexdigest "60"
  ∧ Spec.bytecode_hash "0x0x60" = sha256_hexdigest "0x60"
  ∧ ¬ (∀ s, _generate_bytecode_hash s = Spec.bytecode_hash s).
Proof.
  assert (Hne : _generate_bytecode_hash "600x60" ≠ Spec.bytecode_hash "600x60").
  { intros H. vm_compute in H. discriminate H. }
  split; [vm_compute; reflexivity|].
  split; [vm_compute; reflexivity|].
  split; [exact Hne|].
  split; [vm_compute; reflexivity|].
  split; [vm_compute; reflexivity|].
  intros H. exact (Hne (H "600x60")).
Qed.



Section SourceHash.

(** The equations of [+:+], which [simpl] leaves folded. *)
Lemma append_cons c s t : String c s +:+ t = String c (s +:+ t).
Proof. reflexivity. Qed.

Lemma append_nil_l t : "" +:+ t = t.
Proof. reflexivity. Qed.

Lemma append_nil_r s : s +:+ "" = s.
Proof. induction s as [|c s IH]; [done|]. by rewrite append_cons, IH. Qed.

Lemma words_cons c s :
  PyStr.words (String c s)
  = if PyStr.isspace c
    then ("", PyStr.push_word (fst (PyStr.words s)) (snd (PyStr.words s)))
    else (String c (fst (PyStr.words s)), snd (PyStr.words s)).
Proof. cbn [PyStr.words]. by destruct (PyStr.words s). Qed.

Lemma split_eq s :
  PyStr.split s = PyStr.push_word (fst (PyStr.words s)) (snd (PyStr.words s)).
Proof. unfold PyStr.split. by destruct (PyStr.words s). Qed.

Lemma words_space c s :
  PyStr.isspace c = true → PyStr.words (String c s) = ("", PyStr.split s).
Proof. intros H. by rewrite words_cons, H, split_eq. Qed.

Lemma words_letter c s :
  PyStr.isspace c = false →
  PyStr.words (String c s) = (String c (fst (PyStr.words s)), snd (PyStr.words s)).
Proof. intros H. by rewrite words_cons, H. Qed.

Lemma split_space c s : PyStr.isspace c = true → PyStr.split (String c s) = PyStr.split s.
Proof. intros H. rewrite (split_eq (String c s)). by rewrite words_space. Qed.

Lemma split_letter c s :
  PyStr.isspace c = false →
  PyStr.split (String c s) = String c (fst (PyStr.words s)) :: snd (PyStr.words s).
Proof. intros H. rewrite (split_eq (String c s)). by rewrite words_letter. Qed.

Lemma words_starts_space s : starts_space s = true → fst (PyStr.words s) = "".
Proof.
  destruct s as [|c s]; [done|]. cbn [starts_space]. intros H.
  by rewrite words_space.
Qed.

Lemma split_starts_space s : starts_space s = true → PyStr.split s = snd (PyStr.words s).
Proof.
  intros H. apply words_starts_space in H. by rewrite split_eq, H.
Qed.

Lemma join_cons w ws : PyStr.join " " (w :: ws) = w +:+ tail_text ws.
Proof. destruct ws; [by rewrite append_nil_r|done]. Qed.

(** Without a leading space the joined words are the first word and
    the rest. *)
Lemma join_split_words s :
  starts_space s = false →
  PyStr.join " " (PyStr.split s) = fst (PyStr.words s) +:+ tail_text (snd (PyStr.words s)).
Proof.
  destruct s as [|c s]; [done|]. cbn [starts_space]. intros H.
  rewrite split_letter, words_letter by done. apply join_cons.
Qed.

(** A text made of whitespace only. *)
Lemma rstrip_empty_words s : PyStr.rstrip s = "" ↔ PyStr.words s = ("", []).
Proof.
  induction s as [|c s IH]; [done|].
  simpl. destruct (PyStr.words s) as [w ws].
  destruct (PyStr.rstrip s) as [|d r].
  - destruct IH as [IH _]. specialize (IH eq_refl). inversion IH; subst.
    destruct (PyStr.isspace c); simpl; split; (done || by intros [=]).
  - destruct (PyStr.isspace c) eqn:Hc.
    + split; [done|]. intros [= Hp]. destruct IH as [_ IH].
      destruct w; simpl in Hp; [|done]. subst. by specialize (IH eq_refl).
    + split; [done|by intros [=]].
Qed.

Lemma rstrip_empty_split s : PyStr.rstrip s = "" → PyStr.split s = [].
Proof. intros H. apply rstrip_empty_words in H. unfold PyStr.split. by rewrite H. Qed.

Lemma split_empty_rstrip s : PyStr.split s = [] → PyStr.rstrip s = "".
Proof.
  intros H. apply rstrip_empty_words. unfold PyStr.split in H.
  destruct (PyStr.words s) as [w ws] eqn:E.
  destruct w; simpl in H; [by subst|done].
Qed.

(** The head of a text without a leading space is in its first word. *)
Lemma words_letter_first s :
  starts_space s = false → s ≠ "" → ∃ c w, fst (PyStr.words s) = String c w.
Proof.
  destruct s as [|c s]; [done|]. simpl starts_space. intros H _.
  rewrite words_letter by done. by eexists _, _.
Qed.

(** Collapsing the runs of a text stripped on the right, in terms of
    its words. *)
Lemma collapse_rstrip s : ∀ b,
  Spec.collapse_from b (PyStr.rstrip s)
  = if starts_space s
    then if b then PyStr.join " " (snd (PyStr.words s))
         else tail_text (snd (PyStr.words s))
    else fst (PyStr.words s) +:+ tail_text (snd (PyStr.words s)).
Proof.
  induction s as [|c s IH]; intros b; [done|].
  simpl starts_space. destruct (PyStr.isspace c) eqn:Hc.
  - rewrite words_space by done. simpl snd.
    simpl PyStr.rstrip. rewrite Hc.
    destruct (PyStr.rstrip s) as [|d r] eqn:Hr.
    + rewrite (rstrip_empty_split _ Hr). by destruct b.
    + assert (Hne : PyStr.split s ≠ []).
      { intros Hs. apply split_empty_rstrip in Hs. congruence. }
      assert (Hj : Spec.collapse_from true (String d r)
                   = PyStr.join " " (PyStr.split s)).
      { rewrite IH. destruct (starts_space s) eqn:Hs.
        - by rewrite split_starts_space.
        - by rewrite join_split_words. }
      change (Spec.collapse_from b (String c (String d r)))
        with (if PyStr.isspace c
              then if b then Spec.collapse_from true (String d r)
                   else String " " (Spec.collapse_from true (String d r))
              else String c (Spec.collapse_from false (String d r))).
      rewrite Hc, Hj. destruct b; [done|].
      unfold tail_text. by destruct (PyStr.split s).
  - rewrite words_letter by done. simpl fst. simpl snd.
    assert (Hrs : PyStr.rstrip (String c s) = String c (PyStr.rstrip s)).
    { simpl. rewrite Hc. by destruct (PyStr.rstrip s). }
    rewrite Hrs.
    change (Spec.collapse_from b (String c (PyStr.rstrip s)))
      with (if PyStr.isspace c
            then if b then Spec.collapse_from true (PyStr.rstrip s)
                 else String " " (Spec.collapse_from true (PyStr.rstrip s))
            else String c (Spec.collapse_from false (PyStr.rstrip s))).
    rewrite Hc, IH. simpl. f_equal.
    destruct (starts_space s) eqn:Hs; [|done].
    by rewrite (words_starts_space _ Hs).
Qed.

Lemma lstrip_no_space s : starts_space (PyStr.lstrip s) = false.
Proof.
  induction s as [|c s IH]; [done|]. simpl.
  destruct (PyStr.isspace c) eqn:Hc; [done|]. simpl. by rewrite Hc.
Qed.

Lemma split_lstrip s : PyStr.split (PyStr.lstrip s) = PyStr.split s.
Proof.
  induction s as [|c s IH]; [done|]. simpl.
  destruct (PyStr.isspace c) eqn:Hc; [|done]. by rewrite split_space.
Qed.

Lemma words_rstrip s : PyStr.words (PyStr.rstrip s) = PyStr.words s.
Proof.
  induction s as [|c s IH]; [done|].
  simpl PyStr.rstrip. destruct (PyStr.rstrip s) as [|d r] eqn:Hr.
  - apply rstrip_empty_words in Hr.
    destruct (PyStr.isspace c) eqn:Hc; simpl; by rewrite Hr, Hc.
  - simpl in *. by rewrite IH.
Qed.

(** What the code hashes: the text stripped at both ends, with every
    remaining run of whitespace collapsed. *)
Lemma join_split_collapse s :
  PyStr.join " " (PyStr.split s) = Spec.collapse_whitespace (PyStr.strip s).
Proof.
  unfold Spec.collapse_whitespace, PyStr.strip.
  rewrite collapse_rstrip, lstrip_no_space.
  by rewrite <- join_split_words, split_lstrip by apply lstrip_no_space.
Qed.

(** Collapsing keeps the words. *)
Lemma words_collapse s :
  PyStr.words (Spec.collapse_from false s) = PyStr.words s
  ∧ PyStr.split (Spec.collapse_from true s) = PyStr.split s.
Proof.
  induction s as [|c s [IH1 IH2]]; [done|].
  assert (Hsp : PyStr.isspace " " = true) by reflexivity.
  simpl Spec.collapse_from. destruct (PyStr.isspace c) eqn:Hc.
  - rewrite !words_space, !split_space by done. rewrite IH2. by split.
  - rewrite !split_letter, !words_letter by done. rewrite IH1. by split.
Qed.

Lemma split_collapse s : PyStr.split (Spec.collapse_whitespace s) = PyStr.split s.
Proof.
  unfold Spec.collapse_whitespace.
  by rewrite split_eq, (proj1 (words_collapse s)), <- split_eq.
Qed.

Lemma split_strip s : PyStr.split (PyStr.strip s) = PyStr.split s.
Proof.
  unfold PyStr.strip. rewrite split_eq, words_rstrip, <- split_eq.
  apply split_lstrip.
Qed.

(** The hashed text determines the words of the source. *)
Lemma split_join_split s : PyStr.split (PyStr.join " " (PyStr.split s)) = PyStr.split s.
Proof. by rewrite join_split_collapse, split_collapse, split_strip. Qed.

End SourceHash.

(** C5 as stated fails: the code also removes the whitespace at the two
    ends of the text.  A source that ends with a newline is hashed
    without it, where collapsing alone leaves a final space.  And two
    sources whose comments differ by their spacing only have one hash. *)
Lemma source_hash_trailing_newline :
  _generate_source_hash ("contract A {}" +:+ newline) = sha256_hexdigest "contract A {}"
  ∧ Spec.source_hash ("contract A {}" +:+ newline) = sha256_hexdigest "contract A {} "
  ∧ _generate_source_hash ("contract A {}" +:+ newline)
    ≠ Spec.source_hash ("contract A {}" +:+ newline)
  ∧ _generate_source_hash "contract A {} /* v  1 */"
    = _generate_source_hash "contract A {} /* v 1 */".
Proof.
  repeat split; try (vm_compute; reflexivity).
  intros H. vm_compute in H. discriminate H.
Qed.

(** C5, amended.  The source hash is the digest of the text stripped of
    its leading and trailing whitespace, with every remaining run of
    whitespace collapsed to one space; nothing else is removed, comments
    included.  Two texts that are equal once their runs are collapsed,
    or that have the same words, get the same hash, and the hashed text
    of two sources is the same only if their words are the same. *)
Theorem source_hash_normalization :
  (∀ s,
      _generate_source_hash s
      = sha256_hexdigest (Spec.collapse_whitespace (PyStr.strip s)))
  ∧ (∀ s1 s2,
        Spec.collapse_whitespace s1 = Spec.collapse_whitespace s2
        ∨ PyStr.split s1 = PyStr.split s2 →
        _generate_source_hash s1 = _generate_source_hash s2)
  ∧ (∀ s1 s2,
        PyStr.join " " (PyStr.split s1) = PyStr.join " " (PyStr.split s2) →
        PyStr.split s1 = PyStr.split s2).
Proof.
  split; [|split].
  - intros s. unfold _generate_source_hash. by rewrite join_split_collapse.
  - intros s1 s2 H. unfold _generate_source_hash.
    assert (PyStr.split s1 = PyStr.split s2) as ->; [|done].
    destruct H as [H|H]; [|done].
    by rewrite <- (split_collapse s1), <- (split_collapse s2), H.
  - intros s1 s2 H.
    by rewrite <- (split_join_split s1), <- (split_join_split s2), H.
Qed.

(** Two layouts of one contract, and the same contract under another
    comment. *)
Lemma source_hash_normalization_witness :
  _generate_source_hash ("contract  A {}" +:+ newline)
  = _generate_source_hash " contract A {}"
  ∧ PyStr.split "contract A {} // v1" = PyStr.split ("contract A {}" +:+ newline +:+ "// v1").
Proof.
  split.
  - refine (proj1 (proj2 source_hash_normalization) _ _ _).
    right. vm_compute. reflexivity.
  - refine (proj2 (proj2 source_hash_normalization) _ _ _).
    vm_compute. reflexivity.
Defined.

(** ** ChainScanner: the limit *)

Section Limit.
Variable w : world.

Lemma explored_app tr tr' : explored (tr ++ tr') = explored tr ++ explored tr'.
Proof. apply omap_app. Qed.

Lemma _make_request_trace c ps tr :
  snd (_make_request w c ps tr)
  = tr ++ [Request (api_url c) (dict_set ps "apikey" (api_key c))].
Proof. by rewrite _make_request_eq. Qed.

Lemma get_contract_source_trace c address tr :
  explored (snd (get_contract_source w c address tr)) = explored tr ++ [address].
Proof.
  unfold get_contract_source.
  pose proof (_make_request_trace c
                [("module", "contract"); ("action", "getsourcecode"); ("address", address)]
                tr) as Ht.
  destruct (_make_request w c _ tr) as [[response c1] tr1].
  simpl in *. subst tr1. by rewrite explored_app.
Qed.

Lemma get_contract_bytecode_trace c address tr :
  explored (snd (get_contract_bytecode w c address tr)) = explored tr.
Proof.
  unfold get_contract_bytecode.
  pose proof (_make_request_trace c
                [("module", "proxy"); ("action", "eth_getCode");
                 ("address", address); ("tag", "latest")] tr) as Ht.
  destruct (_make_request w c _ tr) as [[response c1] tr1].
  simpl in *. subst tr1. rewrite explored_app. simpl. apply app_nil_r.
Qed.

(** One iteration looks at one candidate, whatever its outcome. *)
Lemma scan_address_explored c address tr :
  explored (snd (scan_address w c address tr)) = explored tr ++ [address].
Proof.
  unfold scan_address.
  pose proof (get_contract_source_trace c address tr) as Hs.
  destruct (get_contract_source w c address tr) as [[src c1] tr1]. simpl in Hs.
  destruct src as [[source_data|]|]; try done.
  destruct (negb _ || negb _); [done|].
  pose proof (get_contract_bytecode_trace c1 address tr1) as Hb.
  destruct (get_contract_bytecode w c1 address tr1) as [[code c2] tr2]. simpl in Hb.
  rewrite Hs in Hb.
  destruct code as [[|bytecode|[|]|]|]; try done.
  destruct (str_truthy bytecode); [|done].
  by destruct (admit_contract w c2 address source_data bytecode tr2).
Qed.

Lemma scan_loop_explored addresses : ∀ c tr contracts,
  explored (snd (scan_loop w addresses c tr contracts)) = explored tr ++ addresses.
Proof.
  induction addresses as [|a rest IH]; intros c tr contracts; simpl.
  - by rewrite app_nil_r.
  - pose proof (scan_address_explored c a tr) as Hs.
    destruct (scan_address w c a tr) as [[r c1] tr1]. simpl in Hs.
    destruct r; rewrite IH, Hs, <- app_assoc; done.
Qed.

(** The loop accepts at most one record per candidate. *)
Lemma scan_loop_length addresses : ∀ c tr contracts,
  (length (fst (fst (scan_loop w addresses c tr contracts)))
   ≤ length contracts + length addresses)%nat.
Proof.
  induction addresses as [|a rest IH]; intros c tr contracts; simpl; [lia|].
  destruct (scan_address w c a tr) as [[r c1] tr1].
  destruct r.
  - etrans; [apply IH|]. rewrite length_app. simpl. lia.
  - etrans; [apply IH|]. lia.
Qed.

Lemma slice_to_positive {A : Type} (l : list A) (limit : Z) :
  0 < limit → slice_to l limit = firstn (Z.to_nat limit) l.
Proof. intros H. unfold slice_to. by rewrite (proj2 (Z.ltb_ge limit 0)) by lia. Qed.

End Limit.

(** C6 as stated fails.  In [Worlds.second_verified] the first candidate
    of Ethereum is not verified and the second one is; with limit 1 the
    code looks at the first candidate only and returns no record, where
    the scanner of the specification goes on to the second candidate and
    returns its record. *)
Lemma limit_counts_candidates :
  fst (fst (get_verified_contracts Worlds.second_verified Worlds.ethereum 1 [])) = []
  ∧ explored (snd (get_verified_contracts Worlds.second_verified Worlds.ethereum 1 []))
    = [Worlds.USDT]
  ∧ ContractData.address
    <$> fst (fst (Spec.get_verified_contracts Worlds.second_verified Worlds.ethereum 1 []))
    = [Worlds.DAI]
  ∧ explored (snd (Spec.get_verified_contracts Worlds.second_verified Worlds.ethereum 1 []))
    = [Worlds.USDT; Worlds.DAI]
  ∧ get_verified_contracts Worlds.second_verified Worlds.ethereum 1 []
    ≠ Spec.get_verified_contracts Worlds.second_verified Worlds.ethereum 1 [].
Proof.
  repeat split; try (vm_compute; reflexivity).
  intros H. apply (f_equal (λ r, length (fst (fst r)))) in H.
  vm_compute in H. discriminate H.
Qed.

(** C6, amended.  The scan looks at the candidates of the slice
    [candidates[:limit]], each of them once and in order, and stops when
    the slice is exhausted; for a positive limit these are the first
    [limit] candidates, or all of them when there are fewer.  The limit
    bounds the candidates looked at, and through them the records
    returned: a skipped candidate uses up its share of the limit. *)
Theorem scan_limit_bounds_candidates :
  (∀ w addresses c limit tr,
      let run := scan_loop w (slice_to addresses limit) c tr [] in
      explored (snd run) = explored tr ++ slice_to addresses limit
      ∧ ContractData.address <$> fst (fst run) `sublist_of` slice_to addresses limit
      ∧ (0 < limit →
         slice_to addresses limit = firstn (Z.to_nat limit) addresses
         ∧ (length (fst (fst run)) ≤ Nat.min (Z.to_nat limit) (length addresses))%nat))
  ∧ (∀ w c limit tr,
        get_verified_contracts w c limit tr
        = scan_loop w (slice_to (test_addresses c) limit) c tr []).
Proof.
  split; [|done].
  intros w addresses c limit tr run. split; [apply scan_loop_explored|]. split.
  - destruct run as [[l c'] tr'] eqn:Hrun. subst run.
    apply scan_loop_spec in Hrun as (_ & _ & new & -> & _ & Hsub); [done|].
    apply coherent_nil.
  - intros Hpos. split; [by apply slice_to_positive|].
    pose proof (scan_loop_length w (slice_to addresses limit) c tr []) as Hlen.
    fold run in Hlen. simpl in Hlen.
    rewrite slice_to_positive in Hlen by done.
    by rewrite length_firstn in Hlen.
Qed.

(** With limit 1 and the first candidate skipped, nothing is returned. *)
Lemma scan_limit_bounds_candidates_witness :
  (length (fst (fst (scan_loop Worlds.second_verified
                       (slice_to (test_addresses Worlds.ethereum) 1)
                       Worlds.ethereum [] []))) ≤ 1)%nat.
Proof.
  refine (proj2 (proj2 (proj2 (proj1 scan_limit_bounds_candidates
            Worlds.second_verified (test_addresses Worlds.ethereum)
            Worlds.ethereum 1 [])) _)).
  reflexivity.
Defined.

(** ** Error handling *)

Section Failures.
Variable w : world.

(** Under failing fetches [_make_request] has no data. *)
Lemma _make_request_fails c ps tr :
  fetch_fails w (api_url c) → fst (fst (_make_request w c ps tr)) = None.
Proof.
  intros Hf. rewrite _make_request_eq. simpl.
  specialize (Hf tr (dict_set ps "apikey" (api_key c))).
  destruct (http_get w tr _) as [|code body]; [done|].
  destruct Hf as [Hc|[->|(data & -> & Hs)]].
  - not_200 code.
  - not_200 code.
  - rewrite bool_decide_false by done.
    not_200 code.
Qed.

Lemma scan_address_fails c address tr :
  fetch_fails w (api_url c) →
  fst (fst (scan_address w c address tr)) = Skipped "not verified"
  ∧ snd (fst (scan_address w c address tr)) = initialize c.
Proof.
  intros Hf. unfold scan_address, get_contract_source.
  pose proof (_make_request_fails c
                [("module", "contract"); ("action", "getsourcecode"); ("address", address)]
                tr Hf) as Hn.
  pose proof (_make_request_state w c
                [("module", "contract"); ("action", "getsourcecode"); ("address", address)]
                tr) as Hs.
  destruct (_make_request w c _ tr) as [[response c1] tr1].
  simpl in Hn, Hs. by subst.
Qed.

(** A chain whose fetches fail contributes no record. *)
Lemma scan_loop_fails addresses : ∀ c tr contracts,
  fetch_fails w (api_url c) →
  fst (fst (scan_loop w addresses c tr contracts)) = contracts.
Proof.
  induction addresses as [|a rest IH]; intros c tr contracts Hf; [done|].
  simpl. destruct (scan_address_fails c a tr Hf) as [Hr Hc].
  destruct (scan_address w c a tr) as [[r c1] tr1]. simpl in Hr, Hc. subst.
  apply IH. by destruct (initialize_config c) as (_ & -> & _).
Qed.

Lemma get_verified_contracts_fails c limit tr :
  fetch_fails w (api_url c) → fst (fst (get_verified_contracts w c limit tr)) = [].
Proof. apply scan_loop_fails. Qed.

(** A chain whose fetches fail at the initialization of the manager
    does not pass the connection test and gets no client. *)
Lemma initialize_chain_fails chain c cs tr :
  __init__ w chain = Return c → fetch_fails w (api_url c) →
  fst (initialize_chain w chain cs tr) = cs.
Proof.
  intros Hi Hf. unfold initialize_chain, test_connection. rewrite Hi.
  pose proof (_make_request_fails (initialize c)
                [("module", "stats"); ("action", "ethsupply")] tr) as Hn.
  destruct (_make_request w (initialize c) _ tr) as [[result c1] tr1].
  cbn [fst] in Hn. rewrite Hn; [done|].
  by destruct (initialize_config c) as (_ & -> & _).
Qed.

(** The records of one chain all pass a global pass that starts from
    empty sets. *)
Lemma global_dedup_first c limit tr :
  fst (fst (global_dedup (fst (fst (get_verified_contracts w c limit tr))) ∅ ∅ []))
  = fst (fst (get_verified_contracts w c limit tr)).
Proof.
  destruct (get_verified_contracts w c limit tr) as [[l c'] tr'] eqn:H.
  apply get_verified_contracts_spec in H as (_ & [Hu _] & _). simpl.
  rewrite global_dedup_keeps_all; [done|done|].
  apply Forall_forall. intros y _. split; set_solver.
Qed.

Lemma process_contract_errors k gen res db x :
  errors (fst (process_contract k gen (res, db) x)) = errors res
  ∧ contracts_processed (fst (process_contract k gen (res, db) x))
    = contracts_processed res.
Proof.
  unfold process_contract.
  by destruct (insert_contract db x _ _) as [[|] db1].
Qed.

(** [_process_contracts] counts no error, and reports the number of
    records it was given. *)
Lemma _process_contracts_errors k gen contracts : ∀ res db,
  errors (fst (fold_left (process_contract k gen) contracts (res, db))) = errors res
  ∧ contracts_processed (fst (fold_left (process_contract k gen) contracts (res, db)))
    = contracts_processed res.
Proof.
  induction contracts as [|x rest IH]; intros res db; [done|].
  cbn [fold_left].
  destruct (process_contract_errors k gen res db x) as [He Hp].
  destruct (process_contract k gen (res, db) x) as [res1 db1].
  destruct (IH res1 db1) as [-> ->]. by split.
Qed.

(** On an initialized system the discovery returns a summary whose
    error count is 0, and which reports the merged list. *)
Lemma discover_contracts_errors k s m chains limit gen tr :
  is_initialized s = true → client_manager s = Some m →
  ∃ res,
    fst (fst (discover_contracts w k s chains limit gen tr)) = Return res
    ∧ errors res = 0
    ∧ contracts_processed res
      = Z.of_nat (length (fst (fst (get_all_verified_contracts w m limit tr)))).
Proof.
  intros Hi Hm. unfold discover_contracts. rewrite Hi, Hm.
  destruct (get_all_verified_contracts w m limit tr) as [[l m1] tr1]. simpl.
  destruct l as [|x l]; [by eexists|].
  unfold _process_contracts.
  pose proof (_process_contracts_errors k gen (x :: l)
                (Results true None (Z.of_nat (length (x :: l))) 0 0 0 [])
                (database s)) as [He Hp].
  destruct (fold_left _ (x :: l) _) as [res db]. simpl in He, Hp.
  by exists res.
Qed.

End Failures.

(** C7. [_make_request] has no data, and raises nothing, when the
    transport raises, when the HTTP status is not 200, when the body
    does not decode to an object, and when the status field of the
    object is not '1'; it returns the object in the remaining case.  The
    constructor of the client raises exactly when the chain is not one
    of the two supported ones or when its API key is unset or empty. *)
Theorem fetcher_error_normalization :
  (∀ w c ps tr,
      let req := Request (api_url c) (dict_set ps "apikey" (api_key c)) in
      let answer := fst (fst (_make_request w c ps tr)) in
      (http_get w tr req = HttpRaises → answer = None)
      ∧ (∀ code body, http_get w tr req = HttpResponse code body → code ≠ 200 →
         answer = None)
      ∧ (http_get w tr req = HttpResponse 200 None → answer = None)
      ∧ (∀ data, http_get w tr req = HttpResponse 200 (Some data) →
         status data ≠ Some "1" → answer = None)
      ∧ (∀ data, http_get w tr req = HttpResponse 200 (Some data) →
         status data = Some "1" → answer = Some data))
  ∧ (∀ w chain,
        (∃ msg, __init__ w chain = Raise msg)
        ↔ (PyStr.lower chain ≠ "ethereum" ∧ PyStr.lower chain ≠ "base")
          ∨ (PyStr.lower chain = "ethereum"
             ∧ (getenv w "ETHERSCAN_API_KEY" = None
                ∨ getenv w "ETHERSCAN_API_KEY" = Some ""))
          ∨ (PyStr.lower chain = "base"
             ∧ (getenv w "BASESCAN_API_KEY" = None
                ∨ getenv w "BASESCAN_API_KEY" = Some ""))).
Proof.
  split.
  - intros w c ps tr req answer. subst answer.
    rewrite _make_request_eq. fold req. simpl.
    repeat split.
    + by intros ->.
    + intros code body -> Hc.
      not_200 code.
    + by intros ->.
    + intros data -> Hs. by rewrite bool_decide_false.
    + intros data -> Hs. by rewrite bool_decide_true.
  - intros w chain. unfold __init__.
    destruct (String.eqb_spec (PyStr.lower chain) "ethereum") as [He|He].
    + rewrite He.
      destruct (getenv w "ETHERSCAN_API_KEY") as [[|a k]|]; simpl; split.
      * intros _. right. left. auto.
      * intros _. by eexists.
      * by intros [msg [=]].
      * intros [[? _]|[(_ & [[=]|[=]])|([=] & _)]]. done.
      * intros _. right. left. auto.
      * intros _. by eexists.
    + destruct (String.eqb_spec (PyStr.lower chain) "base") as [Hb|Hb].
      * rewrite Hb.
        destruct (getenv w "BASESCAN_API_KEY") as [[|a k]|]; simpl; split.
        -- intros _. right. right. auto.
        -- intros _. by eexists.
        -- by intros [msg [=]].
        -- intros [[_ ?]|[([=] & _)|(_ & [[=]|[=]])]]. done.
        -- intros _. right. right. auto.
        -- intros _. by eexists.
      * split.
        -- intros _. by left.
        -- intros _. by eexists.
Qed.

(** An unreachable explorer gives no data; the chain [polygon] has no
    client. *)
Lemma fetcher_error_normalization_witness :
  fst (fst (_make_request Worlds.ethereum_down Worlds.ethereum
              [("module", "stats"); ("action", "ethsupply")] [])) = None
  ∧ ∃ msg, __init__ Worlds.ethereum_down "Polygon" = Raise msg.
Proof.
  split.
  - refine (proj1 (proj1 fetcher_error_normalization Worlds.ethereum_down
              Worlds.ethereum [("module", "stats"); ("action", "ethsupply")] []) _).
    reflexivity.
  - refine (proj2 (proj2 fetcher_error_normalization Worlds.ethereum_down "Polygon") _).
    left. split; discriminate.
Defined.

(** ** Failure isolation *)

(** C8 as stated fails on the error count.  In [Worlds.ethereum_down]
    each of the five calls to the explorer of Ethereum fails, Base
    returns its record and the discovery goes through, but the summary
    reports 0 errors: the failures of the fetcher are logged, not
    counted. *)
Lemma fetch_failures_are_not_counted :
  let run := discover_contracts Worlds.ethereum_down Worlds.quiet Worlds.ready None 5 true [] in
  fetch_fails Worlds.ethereum_down Worlds.etherscan
  ∧ length (requests_to Worlds.etherscan (snd run)) = 5%nat
  ∧ (∃ res, fst (fst run) = Return res
            ∧ contracts_added res = 1
            ∧ errors res = 0
            ∧ errors res ≠ Z.of_nat (length (requests_to Worlds.etherscan (snd run)))).
Proof.
  intros run. split; [|split].
  - intros tr ps. reflexivity.
  - vm_compute. reflexivity.
  - eexists. split; [vm_compute; reflexivity|].
    split; [reflexivity|]. split; [reflexivity|].
    intros H. vm_compute in H. discriminate H.
Qed.

(** C8, amended.  When every fetch of one chain fails, its scan returns
    no record and the orchestrator goes on with the remaining chains,
    its list and its global hash sets untouched: with the two supported
    chains, whichever comes first, the merged list is the list of the
    other chain's scan; a chain that fails already when the manager is
    initialized gets no client.  The discovery returns a summary that
    reports the merged records as processed; its error count is 0, as
    the failed fetches are not counted. *)
Theorem failing_chain_is_isolated :
  ∀ w nA cA nB cB i limit tr,
    fetch_fails w (api_url cA) →
    (∀ tr0, fst (fst (get_verified_contracts w cA limit tr0)) = [])
    ∧ (∀ rest all gb gs,
          fst (fst (chains_loop w ((nA, cA) :: rest) limit tr all gb gs))
          = fst (fst (chains_loop w rest limit
                        (snd (get_verified_contracts w cA limit tr)) all gb gs)))
    ∧ fst (fst (get_all_verified_contracts w (Manager [(nA, cA); (nB, cB)] i) limit tr))
      = fst (fst (get_verified_contracts w cB limit
                    (snd (get_verified_contracts w cA limit tr))))
    ∧ fst (fst (get_all_verified_contracts w (Manager [(nB, cB); (nA, cA)] i) limit tr))
      = fst (fst (get_verified_contracts w cB limit tr))
    ∧ (∀ k s chains gen m,
          is_initialized s = true → client_manager s = Some m →
          ∃ res,
            fst (fst (discover_contracts w k s chains limit gen tr)) = Return res
            ∧ errors res = 0
            ∧ contracts_processed res
              = Z.of_nat (length (fst (fst (get_all_verified_contracts w m limit tr)))))
    ∧ (∀ chain c0 cs tr0,
          __init__ w chain = Return c0 → api_url c0 = api_url cA →
          fst (initialize_chain w chain cs tr0) = cs).
Proof.
  intros w nA cA nB cB i limit tr Hf.
  split; [intros tr0; by apply get_verified_contracts_fails|].
  split; [|split; [|split]].
  - intros rest all gb gs. cbn [chains_loop].
    pose proof (get_verified_contracts_fails w cA limit tr Hf) as HA.
    destruct (get_verified_contracts w cA limit tr) as [[lA cA'] trA].
    cbn [fst snd] in *. subst lA. cbn [global_dedup]. rewrite app_nil_r.
    by destruct (chains_loop w rest limit trA all gb gs) as [[out cs'] tr'].
  - unfold get_all_verified_contracts. simpl.
    pose proof (get_verified_contracts_fails w cA limit tr Hf) as HA.
    destruct (get_verified_contracts w cA limit tr) as [[lA cA'] trA].
    simpl in HA. subst lA. simpl.
    pose proof (global_dedup_first w cB limit trA) as HB.
    destruct (get_verified_contracts w cB limit trA) as [[lB cB'] trB]. simpl in HB.
    destruct (global_dedup lB ∅ ∅ []) as [[uB gb] gs]. simpl in HB. subst uB.
    simpl. by rewrite ?app_nil_r.
  - unfold get_all_verified_contracts. simpl.
    pose proof (global_dedup_first w cB limit tr) as HB.
    destruct (get_verified_contracts w cB limit tr) as [[lB cB'] trB]. simpl in HB.
    destruct (global_dedup lB ∅ ∅ []) as [[uB gb] gs]. simpl in HB. subst uB.
    pose proof (get_verified_contracts_fails w cA limit trB Hf) as HA.
    destruct (get_verified_contracts w cA limit trB) as [[lA cA'] trA].
    simpl in HA. subst lA. simpl. by rewrite ?app_nil_r.
  - split.
    + intros k s chains gen m Hi Hm.
      by apply discover_contracts_errors.
    + intros chain c0 cs tr0 Hi Hu.
      eapply initialize_chain_fails; [exact Hi|]. by rewrite Hu.
Qed.

(** Ethereum is down and comes first: the merged list is the list of
    Base. *)
Lemma failing_chain_is_isolated_witness :
  fst (fst (get_all_verified_contracts Worlds.ethereum_down Worlds.both 5 []))
  = fst (fst (get_verified_contracts Worlds.ethereum_down Worlds.base 5
                (snd (get_verified_contracts Worlds.ethereum_down Worlds.ethereum 5 [])))).
Proof.
  refine (proj1 (proj2 (proj2 (failing_chain_is_isolated Worlds.ethereum_down
            "ethereum" Worlds.ethereum "base" Worlds.base true 5 [] _)))).
  intros tr ps. reflexivity.
Defined.

(** ** The model on sample inputs *)

Section Samples.

Let usdt : ContractData.t := Worlds.sample "b1" "s1".

Let dai : ContractData.t :=
  ContractData.Make Worlds.DAI "Dai Stablecoin" "contract Dai {}" "0x6001" "v0.5.12"
                    false 0 "" "[]" "" 0 "ethereum" 1 "2025-01-02T00:00:00" "b2" "s2".

Let weth : ContractData.t :=
  ContractData.Make Worlds.WETH "WETH9" "contract WETH9 {}" "0x6002" "v0.8.19"
                    true 200 "" "[]" "" 0 "base" 8453 "2025-01-03T00:00:00" "b3" "s3".

Let store : ContractDatabase :=
  Database true
    [ Sqlite.Row 1 usdt "" "2025-01-01 10:00:00" "2025-01-01 10:00:00";
      Sqlite.Row 2 dai "" "2025-01-02 10:00:00" "2025-01-02 10:00:00";
      Sqlite.Row 3 weth "" "2025-01-03 10:00:00" "2025-01-03 10:00:00" ] 3.

Example like_is_case_blind : Sqlite.like "%dai%" "Dai Stablecoin" = true.
Proof. reflexivity. Qed.

Example like_wildcards :
  Sqlite.like "W_TH%" "WETH9" = true ∧ Sqlite.like "W_TH" "WETH9" = false.
Proof. split; reflexivity. Qed.

Example newest_first :
  Sqlite.id <$> get_contracts store no_filters None 0 = [3; 2; 1].
Proof. reflexivity. Qed.

Example limit_and_offset :
  Sqlite.id <$> get_contracts store no_filters (Some 1) 1 = [2].
Proof. reflexivity. Qed.

Example negative_limit_is_no_limit :
  Sqlite.id <$> get_contracts store no_filters (Some (-1)) 1 = [2; 1].
Proof. reflexivity. Qed.

Example filter_by_chain_and_name :
  Sqlite.id
  <$> get_contracts store (Filters (Some "ethereum") (Some "TOKEN") None None None) None 0
  = [1].
Proof. reflexivity. Qed.

Example filter_by_optimization :
  Sqlite.id <$> get_contracts store (Filters None None None (Some false) None) None 0
  = [2].
Proof. reflexivity. Qed.

Example oversized_limit_is_an_error :
  get_contracts store no_filters (Some (2 ^ 63)) 0 = [].
Proof. reflexivity. Qed.

Example closed_store :
  get_contracts (close store) no_filters None 0 = []
  ∧ fst (insert_contract (close store) weth "" "now") = false.
Proof. split; reflexivity. Qed.

Example oversized_runs_are_refused :
  let big :=
    ContractData.Make Worlds.DAI "Big" "contract Big {}" "0x6003" "v0.8.19"
                      true (2 ^ 63) "" "[]" "" 0 "ethereum" 1 "" "b9" "s9" in
  insert_contract store big "" "now" = (false, store).
Proof. reflexivity. Qed.

(** The slices of Python. *)
Example slices :
  slice_to [1; 2; 3; 4; 5] 2 = [1; 2]
  ∧ slice_to [1; 2; 3; 4; 5] 9 = [1; 2; 3; 4; 5]
  ∧ slice_to [1; 2; 3; 4; 5] 0 = []
  ∧ slice_to [1; 2; 3; 4; 5] (-1) = [1; 2; 3; 4]
  ∧ slice_to [1; 2; 3; 4; 5] (-7) = [].
Proof. repeat split. Qed.

(** The text operations of Python. *)
Example text_operations :
  PyStr.split "  pragma   solidity ^0.8.0; " = ["pragma"; "solidity"; "^0.8.0;"]
  ∧ PyStr.join " " ["a"; "b"; "c"] = "a b c"
  ∧ PyStr.replace "0x" "" "0x600x0xx" = "60x"
  ∧ PyStr.lower "0XaBcDeF" = "0xabcdef"
  ∧ PyStr.strip "  a b  " = "a b".
Proof. repeat split. Qed.

(** The limiter of a client is built for four requests per period, and
    no operation of the client changes it. *)
Remark throttler_configuration w chain c :
  __init__ w chain = Return c →
  throttler_rate_limit c = 4
  ∧ throttler_rate_limit (initialize c) = 4
  ∧ ∀ bh sh, throttler_rate_limit (add_seen bh sh c) = 4.
Proof.
  unfold __init__, initialize.
  destruct (String.eqb _ _); [|destruct (String.eqb _ _); [|done]].
  - destruct (getenv w _) as [k|]; [|done]. destruct (str_truthy k); [|done].
    by intros [= <-].
  - destruct (getenv w _) as [k|]; [|done]. destruct (str_truthy k); [|done].
    by intros [= <-].
Qed.

(** The whole discovery in [Worlds.same_code], from a system that is not
    initialized: both explorers answer, the bytecode shared by the two
    chains is stored once. *)
Example discovery_from_scratch :
  let run :=
    discover_contracts Worlds.same_code Worlds.quiet
      (System None Worlds.empty_db false) None 20 false [] in
  fst (fst run)
  = Return (Results true None 1 1 0 0 [])
  ∧ length (contracts (database (snd (fst run)))) = 1%nat
  ∧ length (snd run) = 14%nat.
Proof. vm_compute. repeat split. Qed.

End Samples.

(** ** The table of the store *)

Section Table.

Lemma select_by_hash_None rows bh sh :
  Sqlite.select_by_hash rows bh sh = None →
  ∀ r, r ∈ rows →
    ContractData.bytecode_hash (Sqlite.contract r) ≠ bh
    ∧ ContractData.source_hash (Sqlite.contract r) ≠ sh.
Proof.
  unfold Sqlite.select_by_hash. intros H r Hin.
  apply list_elem_of_In in Hin.
  pose proof (find_none _ _ H r Hin) as E. simpl in E.
  apply orb_false_elim in E as [E1 E2].
  by apply String.eqb_neq in E1, E2.
Qed.

Lemma table_unique_snoc rows r :
  table_unique rows →
  (∀ r0, r0 ∈ rows →
     ContractData.bytecode_hash (Sqlite.contract r0)
     ≠ ContractData.bytecode_hash (Sqlite.contract r)
     ∧ ContractData.source_hash (Sqlite.contract r0)
       ≠ ContractData.source_hash (Sqlite.contract r)) →
  table_unique (rows ++ [r]).
Proof.
  unfold table_unique, hash_unique. intros [Hb Hs] Hno.
  rewrite !fmap_app. simpl.
  split; apply NoDup_app; (split; [done|]); (split; [|apply NoDup_singleton]);
    intros h Hh Hh'; apply list_elem_of_singleton in Hh'; subst h;
    apply list_elem_of_fmap in Hh as (c0 & E & Hc0);
    apply list_elem_of_fmap in Hc0 as (r0 & -> & Hr0);
    destruct (Hno r0 Hr0); congruence.
Qed.

(** What a successful insertion has checked and done. *)
Lemma insert_contract_inv db c summary now db' :
  insert_contract db c summary now = (true, db') →
  conn db = true
  ∧ Sqlite.select_by_hash (contracts db) (ContractData.bytecode_hash c)
      (ContractData.source_hash c) = None
  ∧ db' = Database true (contracts db ++ [Sqlite.Row (last_id db + 1) c summary now now])
            (last_id db + 1).
Proof.
  unfold insert_contract, Sqlite.insert.
  destruct (conn db) eqn:Hc; simpl; [|done].
  destruct (Sqlite.select_by_hash _ _ _); [done|].
  destruct (_ && _); [|done].
  destruct (Sqlite.unique_ok _ _); [|done].
  by intros [= <-].
Qed.

Lemma insert_contract_cases db c summary now :
  (fst (insert_contract db c summary now) = false
   ∧ snd (insert_contract db c summary now) = db)
  ∨ (fst (insert_contract db c summary now) = true
     ∧ insert_contract db c summary now
       = (true, Database true
                  (contracts db ++ [Sqlite.Row (last_id db + 1) c summary now now])
                  (last_id db + 1))).
Proof.
  destruct (insert_contract db c summary now) as [[] db'] eqn:E.
  - right. split; [done|].
    by destruct (insert_contract_inv _ _ _ _ _ E) as (_ & _ & ->).
  - left. split; [done|]. by apply insert_contract_false in E.
Qed.

Lemma insert_contract_unique db c summary now :
  table_unique (contracts db) →
  table_unique (contracts (snd (insert_contract db c summary now))).
Proof.
  intros Hu.
  destruct (insert_contract db c summary now) as [[] db'] eqn:E.
  - destruct (insert_contract_inv _ _ _ _ _ E) as (_ & Hnone & ->). simpl.
    apply table_unique_snoc; [done|]. simpl.
    by apply select_by_hash_None.
  - apply insert_contract_false in E. by subst.
Qed.

Lemma update_summary_row_contract a s n r :
  Sqlite.contract (update_summary_row a s n r) = Sqlite.contract r.
Proof. unfold update_summary_row. by destruct (String.eqb _ _). Qed.

Lemma update_summary_contracts a s n rows :
  Sqlite.contract <$> map (update_summary_row a s n) rows = Sqlite.contract <$> rows.
Proof.
  induction rows as [|r rows IH]; [done|].
  simpl. rewrite update_summary_row_contract. f_equal. apply IH.
Qed.

Lemma update_contract_summary_unique db a s n :
  table_unique (contracts db) →
  table_unique (contracts (snd (update_contract_summary db a s n))).
Proof.
  unfold update_contract_summary, table_unique.
  destruct (conn db); simpl; [|done].
  by rewrite update_summary_contracts.
Qed.

Lemma process_contract_db k gen res db x :
  snd (process_contract k gen (res, db) x)
  = snd (insert_contract db x (analyze_contract k x) (current_timestamp k db)).
Proof.
  unfold process_contract.
  destruct (insert_contract db x _ _) as [[] db']; by destruct gen.
Qed.

Lemma _process_contracts_unique k gen l : ∀ res db,
  table_unique (contracts db) →
  table_unique (contracts (snd (fold_left (process_contract k gen) l (res, db)))).
Proof.
  induction l as [|x l IH]; intros res db Hu; [done|].
  cbn [fold_left].
  destruct (process_contract k gen (res, db) x) as [res1 db1] eqn:E.
  apply IH.
  replace db1 with (snd (process_contract k gen (res, db) x)) by by rewrite E.
  rewrite process_contract_db. by apply insert_contract_unique.
Qed.

Lemma discover_contracts_database w k s chains limit gen tr :
  database (snd (fst (discover_contracts w k s chains limit gen tr))) = database s
  ∨ ∃ l, database (snd (fst (discover_contracts w k s chains limit gen tr)))
         = snd (_process_contracts k (database s) l gen).
Proof.
  unfold discover_contracts, system_initialize.
  destruct (is_initialized s) eqn:Hi.
  - destruct (client_manager s) as [m|]; [|by left].
    destruct (get_all_verified_contracts w m limit tr) as [[l m'] tr'].
    destruct l as [|x l]; [by left|].
    right. exists (x :: l).
    by destruct (_process_contracts k (database s) (x :: l) gen).
  - destruct (manager_initialize w (Manager [] false) tr) as [m tr1].
    destruct (github_initialize_ok k); [|by left].
    simpl.
    destruct (get_all_verified_contracts w m limit tr1) as [[l m'] tr'].
    destruct l as [|x l]; [by left|].
    right. exists (x :: l).
    by destruct (_process_contracts k (database s) (x :: l) gen).
Qed.

End Table.



Section Lookup.

Lemma get_contract_by_address_Some db a r :
  get_contract_by_address db a = Some r →
  conn db = true ∧ r ∈ contracts db ∧ ContractData.address (Sqlite.contract r) = a.
Proof.
  unfold get_contract_by_address.
  destruct (conn db); simpl; [|done].
  intros H. apply find_some in H as [Hin E].
  split; [done|]. split; [by apply list_elem_of_In|].
  by apply String.eqb_eq in E.
Qed.

Lemma get_contract_by_address_None db a :
  get_contract_by_address db a = None
  ↔ conn db = false
    ∨ ∀ r, r ∈ contracts db → ContractData.address (Sqlite.contract r) ≠ a.
Proof.
  unfold get_contract_by_address.
  destruct (conn db); simpl; [|by split; [left|]].
  split.
  - intros H. right. intros r Hin.
    apply list_elem_of_In in Hin.
    pose proof (find_none _ _ H r Hin) as E. simpl in E.
    by apply String.eqb_neq in E.
  - intros [|H]; [done|].
    destruct (find _ _) as [r|] eqn:E; [|done].
    apply find_some in E as [Hin E].
    apply String.eqb_eq in E. apply list_elem_of_In in Hin.
    by destruct (H r Hin).
Qed.

Lemma find_app {A : Type} (p : A → bool) (l k : list A) :
  find p (l ++ k) = match find p l with Some x => Some x | None => find p k end.
Proof.
  induction l as [|x l IH]; [done|].
  simpl. by destruct (p x).
Qed.

Lemma get_contract_by_address_insert db c summary now db' a :
  insert_contract db c summary now = (true, db') →
  get_contract_by_address db' a
  = match get_contract_by_address db a with
    | Some r => Some r
    | None =>
        if String.eqb (ContractData.address c) a
        then Some (Sqlite.Row (last_id db + 1) c summary now now)
        else None
    end.
Proof.
  intros E. destruct (insert_contract_inv _ _ _ _ _ E) as (Hc & _ & ->).
  unfold get_contract_by_address. rewrite Hc. simpl.
  by rewrite find_app.
Qed.

End Lookup.



(** ** Updating summaries and storing batches *)

Section Update.

Lemma update_summary_row_hit a s n r :
  ContractData.address (Sqlite.contract r) = a →
  update_summary_row a s n r
  = Sqlite.Row (Sqlite.id r) (Sqlite.contract r) s (Sqlite.created_at r) n.
Proof. intros <-. unfold update_summary_row. by rewrite String.eqb_refl. Qed.

Lemma update_summary_row_miss a s n r :
  ContractData.address (Sqlite.contract r) ≠ a → update_summary_row a s n r = r.
Proof.
  intros H. unfold update_summary_row.
  by rewrite (proj2 (String.eqb_neq _ _) H).
Qed.

Lemma select_by_hash_update a s n rows bh sh :
  Sqlite.select_by_hash (map (update_summary_row a s n) rows) bh sh
  = update_summary_row a s n <$> Sqlite.select_by_hash rows bh sh.
Proof.
  unfold Sqlite.select_by_hash.
  induction rows as [|r rows IH]; [done|].
  simpl. rewrite update_summary_row_contract.
  by destruct (_ || _).
Qed.

Lemma unique_ok_update a s n rows c :
  Sqlite.unique_ok (map (update_summary_row a s n) rows) c = Sqlite.unique_ok rows c.
Proof.
  unfold Sqlite.unique_ok.
  induction rows as [|r rows IH]; [done|].
  simpl. by rewrite update_summary_row_contract, IH.
Qed.

Lemma find_address_update a s n rows :
  find (fun r => String.eqb (ContractData.address (Sqlite.contract r)) a)
       (map (update_summary_row a s n) rows)
  = update_summary_row a s n
    <$> find (fun r => String.eqb (ContractData.address (Sqlite.contract r)) a) rows.
Proof.
  induction rows as [|r rows IH]; [done|].
  simpl. rewrite update_summary_row_contract.
  by destruct (String.eqb _ _).
Qed.

End Update.



Section Batch.

Variable k : collaborators.
Variable gen : bool.

(** One record of the batch: it is counted as added or as a
    duplicate, and the table grows by its row or stays. *)
Lemma process_contract_step res db x res' db' :
  process_contract k gen (res, db) x = (res', db') →
  success res' = success res ∧ result_message res' = result_message res
  ∧ conn db' = conn db
  ∧ ((contracts_added res' = contracts_added res + 1
      ∧ duplicates_found res' = duplicates_found res
      ∧ (∃ r, contracts db' = contracts db ++ [r] ∧ Sqlite.contract r = x
              ∧ Sqlite.contract_summary r = analyze_contract k x)
      ∧ ∃ files, readme_files res' = readme_files res ++ files
                 ∧ (length files ≤ 1)%nat ∧ (gen = false → files = []))
     ∨ (contracts_added res' = contracts_added res
        ∧ duplicates_found res' = duplicates_found res + 1
        ∧ db' = db ∧ readme_files res' = readme_files res)).
Proof.
  unfold process_contract.
  destruct (insert_contract db x _ _) as [[] db1] eqn:E.
  - destruct (insert_contract_inv _ _ _ _ _ E) as (Hc & _ & ->).
    intros [= <- <-]. simpl.
    split; [done|]. split; [done|]. split; [done|]. left.
    split; [done|]. split; [done|].
    split; [by eexists|].
    destruct gen;
      [|exists []; rewrite app_nil_r; split; [done|]; split; [simpl; lia|done]].
    destruct (generate_readme k x _) as [p|].
    + exists [p]. split; [done|]. split; [simpl; lia|done].
    + exists []. rewrite app_nil_r. split; [done|]. split; [simpl; lia|done].
  - apply insert_contract_false in E. subst db1.
    intros [= <- <-]. simpl.
    split; [done|]. split; [done|]. split; [done|]. by right.
Qed.

Lemma process_contracts_fold l : ∀ res db res' db',
  fold_left (process_contract k gen) l (res, db) = (res', db') →
  success res' = success res
  ∧ contracts_added res ≤ contracts_added res'
  ∧ duplicates_found res ≤ duplicates_found res'
  ∧ contracts_added res' + duplicates_found res'
    = contracts_added res + duplicates_found res + Z.of_nat (length l)
  ∧ conn db' = conn db
  ∧ (∃ rows, contracts db' = contracts db ++ rows
             ∧ Z.of_nat (length rows) = contracts_added res' - contracts_added res
             ∧ Sqlite.contract <$> rows `sublist_of` l
             ∧ Forall (fun r => Sqlite.contract_summary r
                               = analyze_contract k (Sqlite.contract r)) rows)
  ∧ (∃ files, readme_files res' = readme_files res ++ files
              ∧ Z.of_nat (length files) ≤ contracts_added res' - contracts_added res
              ∧ (gen = false → files = [])).
Proof.
  induction l as [|x l IH]; intros res db res' db' E.
  - simpl in E. injection E as <- <-.
    split; [done|]. split; [lia|]. split; [lia|]. split; [simpl; lia|].
    split; [done|].
    split; [exists []; rewrite app_nil_r; repeat split; [simpl; lia|done|done]|].
    exists []. rewrite app_nil_r. split; [done|]. split; [simpl; lia|done].
  - cbn [fold_left] in E.
    destruct (process_contract k gen (res, db) x) as [res1 db1] eqn:E1.
    apply process_contract_step in E1 as (S1 & _ & C1 & H1).
    apply IH in E as (S2 & A2 & D2 & T2 & C2 & (rows & R2 & L2 & Sub2 & F2)
                      & (files & Fi2 & Le2 & G2)).
    rewrite length_cons, Nat2Z.inj_succ.
    destruct H1 as [(A1 & D1 & (r & R1 & X1 & Y1) & (f1 & Fi1 & Le1 & G1))
                   |(A1 & D1 & -> & Fi1)].
    + split; [congruence|]. split; [lia|]. split; [lia|]. split; [lia|].
      split; [congruence|].
      split.
      * exists (r :: rows). rewrite R2, R1, <- app_assoc. split; [done|].
        split; [simpl length; lia|].
        split; [rewrite fmap_cons, X1; by apply sublist_skip|].
        constructor; [by rewrite X1|done].
      * exists (f1 ++ files). rewrite Fi2, Fi1, <- app_assoc. split; [done|].
        split; [rewrite length_app; lia|].
        intros Hg. by rewrite (G1 Hg), (G2 Hg).
    + split; [congruence|]. split; [lia|]. split; [lia|]. split; [lia|].
      split; [congruence|].
      split.
      * exists rows. split; [done|]. split; [lia|].
        split; [by apply sublist_cons|done].
      * exists files. rewrite Fi2, Fi1. split; [done|]. split; [lia|done].
Qed.

(** On a closed store every record is turned away. *)
Lemma process_contracts_closed l : ∀ res db,
  conn db = false →
  snd (fold_left (process_contract k gen) l (res, db)) = db
  ∧ contracts_added (fst (fold_left (process_contract k gen) l (res, db)))
    = contracts_added res.
Proof.
  induction l as [|x l IH]; intros res db Hc; [done|].
  cbn [fold_left]. unfold process_contract at 2 4, insert_contract.
  rewrite Hc. simpl.
  match goal with
  | |- context [fold_left _ l (?r1, db)] => destruct (IH r1 db Hc) as [-> ->]
  end.
  done.
Qed.

(** A batch without repeated hashes, none of them in the table, goes
    in as a whole. *)
Lemma process_contracts_fresh l : ∀ res db,
  conn db = true → hash_unique l →
  (∀ x r, x ∈ l → r ∈ contracts db → ¬ conflicts x r) →
  (∀ x, x ∈ l →
     Sqlite.fits_int64 (ContractData.runs x) = true
     ∧ Sqlite.fits_int64 (ContractData.block_number x) = true
     ∧ Sqlite.fits_int64 (ContractData.chain_id x) = true) →
  contracts_added (fst (fold_left (process_contract k gen) l (res, db)))
  = contracts_added res + Z.of_nat (length l)
  ∧ Sqlite.contract <$> contracts (snd (fold_left (process_contract k gen) l (res, db)))
    = (Sqlite.contract <$> contracts db) ++ l.
Proof.
  induction l as [|x l IH]; intros res db Hc [Hb Hs] Hnew Hfit.
  { simpl. split; [lia|by rewrite app_nil_r]. }
  cbn [fold_left].
  assert (Hx : x ∈ x :: l) by apply list_elem_of_here.
  destruct (select_by_hash_none (contracts db) x (λ r Hr, Hnew x r Hx Hr)) as [Hsel Hok].
  destruct (Hfit x Hx) as (F1 & F2 & F3).
  assert (E : insert_contract db x (analyze_contract k x) (current_timestamp k db)
              = (true, Database true
                         (contracts db
                          ++ [Sqlite.Row (last_id db + 1) x (analyze_contract k x)
                                (current_timestamp k db) (current_timestamp k db)])
                         (last_id db + 1))).
  { unfold insert_contract, Sqlite.insert. rewrite Hc, Hsel, F1, F2, F3, Hok. done. }
  unfold process_contract at 2 4. rewrite E. cbv iota beta.
  rewrite fmap_cons in Hb, Hs. apply NoDup_cons in Hb as [Hb1 Hb2], Hs as [Hs1 Hs2].
  match goal with
  | |- context [fold_left _ l (?r1, ?d1)] =>
      destruct (IH r1 d1) as [IH1 IH2]
  end.
  - done.
  - done.
  - intros y r Hy Hr. simpl in Hr. apply elem_of_app in Hr as [Hr|Hr].
    + apply Hnew; [by apply list_elem_of_further|done].
    + apply list_elem_of_singleton in Hr. subst r. unfold conflicts. simpl.
      intros [Eq|Eq].
      * apply Hb1. rewrite Eq. by apply list_elem_of_fmap_2.
      * apply Hs1. rewrite Eq. by apply list_elem_of_fmap_2.
  - intros y Hy. by apply Hfit, list_elem_of_further.
  - rewrite IH1, IH2, length_cons, Nat2Z.inj_succ. cbn [contracts_added contracts].
    split; [lia|].
    by rewrite fmap_app, <- app_assoc.
Qed.

End Batch.





(** ** Pages of a query *)

Section Pages.

Ltac by_filters f :=
  destruct f as [[chain|] [name|] [version|] [opt|] [addr|]].

Lemma build_query_limit f l :
  l ≠ 0 →
  Sqlite.parse (fst (build_query f (Some l) 0))
  = Some (Sqlite.Select (conds_of f) true false)
  ∧ snd (build_query f (Some l) 0) = params_of f ++ [Sqlite.VInt l].
Proof.
  intros Hl. unfold build_query. apply Z.eqb_neq in Hl. rewrite Hl.
  by_filters f; split; vm_compute; reflexivity.
Qed.

Lemma build_query_limit_offset f l o :
  l ≠ 0 → o ≠ 0 →
  Sqlite.parse (fst (build_query f (Some l) o))
  = Some (Sqlite.Select (conds_of f) true true)
  ∧ snd (build_query f (Some l) o) = params_of f ++ [Sqlite.VInt l; Sqlite.VInt o].
Proof.
  intros Hl Ho. unfold build_query.
  apply Z.eqb_neq in Hl, Ho. rewrite Hl, Ho.
  by_filters f; split; vm_compute; reflexivity.
Qed.

Lemma forallb_bindable_app f tail :
  forallb Sqlite.bindable (params_of f ++ tail) = forallb Sqlite.bindable tail.
Proof. by rewrite forallb_app, params_of_bindable. Qed.

(** The statement of a query with its parameters, run by the engine. *)
Lemma execute_select_tail rows f query l o tail :
  Sqlite.parse query = Some (Sqlite.Select (conds_of f) l o) →
  Sqlite.execute_select rows query (params_of f ++ tail)
  = if negb (forallb Sqlite.bindable tail) then None
    else
      let sorted := Sqlite.order_by_created_at_desc (List.filter (matches f) rows) in
      match l, o, tail with
      | false, false, [] => Some sorted
      | true, false, [Sqlite.VInt n] => Some (Sqlite.apply_limit n sorted)
      | true, true, [Sqlite.VInt n; Sqlite.VInt m] =>
          Some (Sqlite.apply_limit n (Sqlite.apply_offset m sorted))
      | _, _, _ => None
      end.
Proof.
  intros Hp. unfold Sqlite.execute_select. rewrite Hp. cbn [Sqlite.conds
    Sqlite.has_limit Sqlite.has_offset].
  rewrite forallb_bindable_app.
  destruct (forallb Sqlite.bindable tail) eqn:Hb; [|done]. cbn [negb].
  rewrite <- params_of_length.
  rewrite (take_app_length (params_of f) tail), (drop_app_length (params_of f) tail).
  rewrite where_rows_matches, length_app.
  destruct l, o, tail as [|[s|n] [|[s'|m] [|v tail]]]; cbn [length Sqlite.int_param];
    rewrite ?Nat.add_0_r;
    try (rewrite (proj2 (Nat.eqb_eq _ _)) by lia; reflexivity);
    try (rewrite (proj2 (Nat.eqb_neq _ _)) by lia; reflexivity).
Qed.

(** [get_contracts] on every input. *)
Lemma get_contracts_eq db f limit offset :
  get_contracts db f limit offset
  = if negb (conn db) then []
    else
      let all := Sqlite.order_by_created_at_desc (List.filter (matches f) (contracts db)) in
      let l := match limit with Some l => l | None => 0 end in
      if l =? 0 then (if offset =? 0 then all else [])
      else if offset =? 0
      then (if Sqlite.fits_int64 l then Sqlite.apply_limit l all else [])
      else if Sqlite.fits_int64 l && Sqlite.fits_int64 offset
      then Sqlite.apply_limit l (Sqlite.apply_offset offset all)
      else [].
Proof.
  unfold get_contracts. destruct (conn db); [|done]. cbn [negb].
  assert (Hnone : ∀ o,
    (let '(query, ps) := build_query f None o in
     match Sqlite.execute_select (contracts db) query ps with
     | Some rows => rows | None => [] end)
    = if o =? 0
      then Sqlite.order_by_created_at_desc (List.filter (matches f) (contracts db))
      else []).
  { intros o. destruct (Z.eqb_spec o 0) as [->|Ho].
    - destruct (build_query_plain f) as [Hp Hps].
      destruct (build_query f None 0) as [query ps]. simpl in Hp, Hps. subst ps.
      rewrite <- (app_nil_r (params_of f)).
      by rewrite (execute_select_tail _ _ _ _ _ _ Hp).
    - pose proof (build_query_offset_only f o Ho) as Hp.
      destruct (build_query f None o) as [query ps]. simpl in Hp.
      unfold Sqlite.execute_select. by rewrite Hp. }
  destruct limit as [l|]; [|apply Hnone].
  destruct (Z.eqb_spec l 0) as [->|Hl]; [rewrite build_query_limit_zero; apply Hnone|].
  cbv zeta.
  destruct (Z.eqb_spec offset 0) as [->|Ho].
  - destruct (build_query_limit f l Hl) as [Hp Hps].
    destruct (build_query f (Some l) 0) as [query ps]. simpl in Hp, Hps. subst ps.
    rewrite (execute_select_tail _ _ _ _ _ _ Hp). simpl.
    rewrite andb_true_r. by destruct (Sqlite.fits_int64 l).
  - destruct (build_query_limit_offset f l offset Hl Ho) as [Hp Hps].
    destruct (build_query f (Some l) offset) as [query ps]. simpl in Hp, Hps. subst ps.
    rewrite (execute_select_tail _ _ _ _ _ _ Hp). simpl.
    rewrite andb_true_r. by destruct (Sqlite.fits_int64 l), (Sqlite.fits_int64 offset).
Qed.

Lemma fits_int64_spec z : Sqlite.fits_int64 z = true ↔ - 2 ^ 63 ≤ z < 2 ^ 63.
Proof. unfold Sqlite.fits_int64. rewrite andb_true_iff, Z.leb_le, Z.ltb_lt. done. Qed.

(** The sort of [ORDER BY] rearranges the rows and leaves them in
    order. *)
Lemma insert_desc_perm r sorted : Sqlite.insert_desc r sorted ≡ₚ r :: sorted.
Proof.
  induction sorted as [|r' sorted IH]; [done|].
  simpl. destruct (String.leb _ _); [done|].
  rewrite IH. apply Permutation_swap.
Qed.

Lemma order_by_created_at_desc_perm rows :
  Sqlite.order_by_created_at_desc rows ≡ₚ rows.
Proof.
  induction rows as [|r rows IH]; [done|].
  simpl. by rewrite insert_desc_perm, IH.
Qed.

Lemma leb_false_flip (a b : string) : String.leb a b = false → String.leb b a = true.
Proof. intros H. destruct (String.leb_total a b); congruence. Qed.

Lemma insert_desc_sorted r sorted :
  newest_to_oldest sorted → newest_to_oldest (Sqlite.insert_desc r sorted).
Proof.
  unfold newest_to_oldest.
  induction sorted as [|r' sorted IH]; intros Hs.
  - simpl. by repeat constructor.
  - simpl. destruct (String.leb _ _) eqn:E.
    + constructor; [done|]. by constructor.
    + apply Sorted_inv in Hs as [Hs Hd]. constructor; [by apply IH|].
      destruct sorted as [|r'' sorted]; simpl.
      * constructor. by apply leb_false_flip.
      * destruct (String.leb (Sqlite.created_at r'') _).
        -- constructor. by apply leb_false_flip.
        -- constructor. by apply HdRel_inv in Hd.
Qed.

Lemma order_by_created_at_desc_sorted rows :
  newest_to_oldest (Sqlite.order_by_created_at_desc rows).
Proof.
  induction rows as [|r rows IH]; [constructor|].
  simpl. by apply insert_desc_sorted.
Qed.

Lemma Sorted_drop {A : Type} (R : A → A → Prop) (n : nat) (l : list A) :
  Sorted R l → Sorted R (drop n l).
Proof.
  revert l. induction n as [|n IH]; intros [|x l] Hs; simpl; try done.
  apply IH. by apply Sorted_inv in Hs as [Hs _].
Qed.

Lemma Sorted_take {A : Type} (R : A → A → Prop) (n : nat) (l : list A) :
  Sorted R l → Sorted R (take n l).
Proof.
  revert l. induction n as [|n IH]; intros [|x l] Hs; simpl; try done.
  apply Sorted_inv in Hs as [Hs Hd]. constructor; [by apply IH|].
  destruct l as [|y l], n; simpl; constructor. by apply HdRel_inv in Hd.
Qed.

(** Every answer of [get_contracts] is a stretch of the full answer. *)
Lemma get_contracts_stretch db f limit offset :
  ∃ n m, get_contracts db f limit offset
         = take n (drop m (Sqlite.order_by_created_at_desc
                             (List.filter (matches f) (contracts db)))).
Proof.
  rewrite get_contracts_eq. unfold Sqlite.apply_limit, Sqlite.apply_offset.
  set (all := Sqlite.order_by_created_at_desc _).
  assert (Hall : ∃ n m, all = take n (drop m all))
    by (exists (length all), 0%nat; by rewrite drop_0, firstn_all).
  assert (Hnil : ∃ n m, [] = take n (drop m all)) by by exists 0%nat, 0%nat.
  destruct (negb (conn db)); [done|]. cbv zeta.
  destruct (_ =? 0); [by destruct (offset =? 0)|].
  destruct (offset =? 0).
  - destruct (Sqlite.fits_int64 _); [|done].
    destruct (_ <? 0); [done|]. by eexists _, 0%nat.
  - destruct (_ && _); [|done].
    destruct (_ <? 0); [|by eexists _, _].
    eexists (length all), _. by rewrite take_ge by (rewrite length_drop; lia).
Qed.

End Pages.







(** ** Searching by text *)

Section Like.

Lemma string_append_assoc (s t u : string) : (s +:+ t) +:+ u = s +:+ (t +:+ u).
Proof.
  induction s as [|c s IH]; [by rewrite !append_nil_l|].
  by rewrite !append_cons, IH.
Qed.

Lemma append_eq_nil (s t : string) : s +:+ t = "" → s = "" ∧ t = "".
Proof.
  destruct s as [|c s]; [by rewrite append_nil_l|].
  by rewrite append_cons.
Qed.

Lemma like_nil s : Sqlite.like "" s = true ↔ s = "".
Proof. by destruct s. Qed.

Lemma like_percent_nil p : Sqlite.like (String "%" p) "" = Sqlite.like p "".
Proof. cbn -[Ascii.eqb]. by rewrite orb_false_r. Qed.

Lemma like_percent_cons p c s :
  Sqlite.like (String "%" p) (String c s)
  = Sqlite.like p (String c s) || Sqlite.like (String "%" p) s.
Proof. reflexivity. Qed.

Lemma like_char a p s :
  Ascii.eqb a "%" = false →
  Sqlite.like (String a p) s
  = match s with
    | EmptyString => false
    | String c s' =>
        (Ascii.eqb a "_" || Ascii.eqb (Sqlite.fold_case a) (Sqlite.fold_case c))
        && Sqlite.like p s'
    end.
Proof. intros H. cbn [Sqlite.like]. by rewrite H. Qed.

(** A pattern that starts with [%] matches when what follows it
    matches an end of the subject. *)
Lemma like_percent p s :
  Sqlite.like (String "%" p) s = true
  ↔ ∃ u v, s = u +:+ v ∧ Sqlite.like p v = true.
Proof.
  induction s as [|c s IH].
  - rewrite like_percent_nil. split.
    + intros H. exists "", "". by rewrite append_nil_l.
    + intros (u & v & E & H). symmetry in E.
      apply append_eq_nil in E as [_ ->]. done.
  - rewrite like_percent_cons, orb_true_iff, IH. split.
    + intros [H|(u & v & -> & H)].
      * exists "", (String c s). by rewrite append_nil_l.
      * exists (String c u), v. by rewrite append_cons.
    + intros (u & v & E & H). destruct u as [|c' u].
      * rewrite append_nil_l in E. subst v. by left.
      * rewrite append_cons in E. injection E as -> ->. right. by exists u, v.
Qed.

Lemma like_any s : Sqlite.like "%" s = true.
Proof. apply like_percent. exists s, "". by rewrite append_nil_r. Qed.

Lemma like_app p : ∀ q s1 s2,
  Sqlite.like p s1 = true → Sqlite.like q s2 = true →
  Sqlite.like (p +:+ q) (s1 +:+ s2) = true.
Proof.
  induction p as [|a p IH]; intros q s1 s2 H1 H2.
  - apply like_nil in H1 as ->. by rewrite !append_nil_l.
  - rewrite append_cons. destruct (Ascii.eqb a "%") eqn:Ea.
    + apply Ascii.eqb_eq in Ea as ->.
      apply like_percent in H1 as (u & v & -> & H1).
      apply like_percent. exists u, (v +:+ s2).
      split; [apply string_append_assoc|by apply IH].
    + rewrite like_char in H1 |- * by done.
      destruct s1 as [|c s1]; [done|].
      rewrite append_cons.
      apply andb_true_iff in H1 as [-> H1]. by apply IH.
Qed.

Lemma like_app_inv p : ∀ q s,
  Sqlite.like (p +:+ q) s = true →
  ∃ s1 s2, s = s1 +:+ s2 ∧ Sqlite.like p s1 = true ∧ Sqlite.like q s2 = true.
Proof.
  induction p as [|a p IH]; intros q s H.
  - rewrite append_nil_l in H. exists "", s. by rewrite append_nil_l.
  - rewrite append_cons in H. destruct (Ascii.eqb a "%") eqn:Ea.
    + apply Ascii.eqb_eq in Ea as ->.
      apply like_percent in H as (u & v & -> & H).
      apply IH in H as (v1 & v2 & -> & H1 & H2).
      exists (u +:+ v1), v2. split; [by rewrite string_append_assoc|].
      split; [|done]. apply like_percent. by exists u, v1.
    + rewrite like_char in H by done.
      destruct s as [|c s]; [done|].
      apply andb_true_iff in H as [Hc H].
      apply IH in H as (s1 & s2 & -> & H1 & H2).
      exists (String c s1), s2. rewrite append_cons. split; [done|].
      split; [|done]. rewrite like_char by done. by rewrite Hc, H1.
Qed.

(** The pattern of a search: the term between two [%]. *)
Lemma like_contains t s :
  Sqlite.like ("%" +:+ (t +:+ "%")) s = true
  ↔ ∃ u v w, s = u +:+ (v +:+ w) ∧ Sqlite.like t v = true.
Proof.
  change ("%" +:+ (t +:+ "%")) with (String "%" (t +:+ "%")).
  rewrite like_percent. split.
  - intros (u & x & -> & H).
    apply like_app_inv in H as (v & w & -> & H & _). by exists u, v, w.
  - intros (u & v & w & -> & H). exists u, (v +:+ w). split; [done|].
    apply like_app; [done|apply like_any].
Qed.

(** A text matches itself as a pattern, whatever the case of its
    letters of ASCII, also when it holds [%] or [_]. *)
Lemma like_ascii_fold t : ∀ v, ascii_fold v = ascii_fold t → Sqlite.like t v = true.
Proof.
  induction t as [|a t IH]; intros [|c v] E; try done.
  simpl in E. injection E as Ec E.
  destruct (Ascii.eqb a "%") eqn:Ea.
  - apply Ascii.eqb_eq in Ea as ->.
    rewrite like_percent_cons. apply orb_true_iff. right.
    apply like_percent. exists "", v. rewrite append_nil_l. split; [done|by apply IH].
  - rewrite like_char by done.
    rewrite Ec, Ascii.eqb_refl, orb_true_r. by apply IH.
Qed.

Lemma search_hit_spec term r :
  search_hit ("%" +:+ (term +:+ "%")) r = true
  ↔ ∃ u v w,
      Sqlite.like term v = true
      ∧ (ContractData.name (Sqlite.contract r) = u +:+ (v +:+ w)
         ∨ ContractData.address (Sqlite.contract r) = u +:+ (v +:+ w)
         ∨ Sqlite.contract_summary r = u +:+ (v +:+ w)).
Proof.
  unfold search_hit. rewrite !orb_true_iff, !like_contains. split.
  - intros [[(u & v & w & E & H)|(u & v & w & E & H)]|(u & v & w & E & H)];
      exists u, v, w; tauto.
  - intros (u & v & w & H & [E|[E|E]]); [left; left|left; right|right];
      by exists u, v, w.
Qed.

End Like.



(** ** Statistics *)

Section Counting.

Context `{Countable K}.
Variable key : Sqlite.row → K.

(** The group of a key holds the number of the rows under the key;
    there is no group of no row. *)
Lemma count_by_lookup rows k n :
  count_by key rows !! k = Some n
  ↔ (0 < n)%nat ∧ n = length (filter (fun r => key r = k) rows).
Proof.
  revert n. induction rows as [|r rows IH]; intros n.
  - unfold count_by. simpl. rewrite lookup_empty.
    split; [done|]. intros [? ->]. simpl in *. lia.
  - unfold count_by in *. cbn [foldr].
    set (m := foldr _ ∅ rows) in *.
    rewrite filter_cons. destruct (decide (key r = k)) as [->|Hne].
    + rewrite lookup_insert_eq. cbn [length].
      destruct (m !! k) as [n'|] eqn:E.
      * destruct (proj1 (IH n') eq_refl) as [_ <-]. simpl.
        split; [intros [= <-]; split; [lia|done]|intros [_ ->]; done].
      * assert (length (filter (λ r : Sqlite.row, key r = k) rows) = 0%nat) as ->.
        { destruct (length _) as [|c] eqn:Ec; [done|].
          assert (@None nat = Some (S c)) by (apply IH; split; [lia|done]).
          done. }
        simpl. split; [intros [= <-]; split; [lia|done]|intros [_ ->]; done].
    + rewrite lookup_insert_ne by done. apply IH.
Qed.

(** The groups together hold every row once. *)
Lemma count_by_total rows :
  map_fold (fun _ n acc => (n + acc)%nat) 0%nat (count_by key rows) = length rows.
Proof.
  induction rows as [|r rows IH]; [apply map_fold_empty|].
  unfold count_by in *. cbn [foldr length].
  set (m := foldr _ ∅ rows) in *.
  assert (Hcomm : ∀ (j1 j2 : K) (z1 z2 y : nat),
            (z1 + (z2 + y) = z2 + (z1 + y))%nat) by (intros; lia).
  destruct (m !! key r) as [n|] eqn:E; simpl.
  - rewrite <- insert_delete_eq.
    rewrite map_fold_insert_L; [|intros; apply Hcomm; done|apply lookup_delete_eq].
    rewrite <- (insert_delete_id m (key r) n E) in IH.
    rewrite map_fold_insert_L in IH; [|intros; apply Hcomm; done|apply lookup_delete_eq].
    lia.
  - rewrite map_fold_insert_L; [|intros; apply Hcomm; done|done]. lia.
Qed.

End Counting.

Section Top.

Context {K : Type}.

Lemma insert_by_count_perm (g : K * nat) sorted : insert_by_count g sorted ≡ₚ g :: sorted.
Proof.
  induction sorted as [|g' sorted IH]; [done|].
  simpl. destruct (_ <=? _)%nat; [done|].
  rewrite IH. apply Permutation_swap.
Qed.

Lemma order_by_count_desc_perm (groups : list (K * nat)) :
  order_by_count_desc groups ≡ₚ groups.
Proof.
  induction groups as [|g groups IH]; [done|].
  simpl. by rewrite insert_by_count_perm, IH.
Qed.

Lemma insert_by_count_sorted (g : K * nat) sorted :
  StronglySorted (fun a b : K * nat => (snd b ≤ snd a)%nat) sorted →
  StronglySorted (fun a b : K * nat => (snd b ≤ snd a)%nat) (insert_by_count g sorted).
Proof.
  induction sorted as [|g' sorted IH]; intros Hs.
  - simpl. by repeat constructor.
  - simpl. destruct (Nat.leb_spec (snd g') (snd g)) as [Hle|Hlt].
    + constructor; [done|].
      apply StronglySorted_inv in Hs as [_ Hall].
      constructor; [done|].
      eapply Forall_impl; [exact Hall|]. simpl. intros; lia.
    + apply StronglySorted_inv in Hs as [Hs Hall].
      constructor; [by apply IH|].
      rewrite insert_by_count_perm. constructor; [simpl; lia|done].
Qed.

Lemma order_by_count_desc_sorted (groups : list (K * nat)) :
  StronglySorted (fun a b : K * nat => (snd b ≤ snd a)%nat) (order_by_count_desc groups).
Proof.
  induction groups as [|g groups IH]; [constructor|].
  simpl. by apply insert_by_count_sorted.
Qed.

Lemma StronglySorted_take_drop (R : K * nat → K * nat → Prop) n l x y :
  StronglySorted R l → x ∈ take n l → y ∈ drop n l → R x y.
Proof.
  revert l. induction n as [|n IH]; intros [|z l] Hs Hx Hy; simpl in *;
    try by apply elem_of_nil in Hx.
  apply StronglySorted_inv in Hs as [Hs Hall].
  apply elem_of_cons in Hx as [->|Hx]; [|by eapply IH].
  rewrite Forall_forall in Hall. apply Hall.
  by apply subseteq_drop in Hy.
Qed.

End Top.

Section TopCompilers.

Variable counts : gmap string nat.

Let ranked : list (string * nat) := order_by_count_desc (map_to_list counts).
Let top : gmap string nat := list_to_map (take 10 ranked).

Lemma ranked_NoDup : NoDup (ranked.*1).
Proof.
  unfold ranked. rewrite order_by_count_desc_perm. apply NoDup_fst_map_to_list.
Qed.

Lemma top_NoDup : NoDup ((take 10 ranked).*1).
Proof. rewrite fmap_take. eapply sublist_NoDup; [apply ranked_NoDup|apply sublist_take]. Qed.

Lemma top_lookup k n : top !! k = Some n ↔ (k, n) ∈ take 10 ranked.
Proof. unfold top. symmetry. apply elem_of_list_to_map, top_NoDup. Qed.

Lemma ranked_elem_of k n : (k, n) ∈ ranked ↔ counts !! k = Some n.
Proof. unfold ranked. rewrite order_by_count_desc_perm. apply elem_of_map_to_list. Qed.

Lemma top_subseteq : top ⊆ counts.
Proof.
  apply map_subseteq_spec. intros k n Hk.
  apply ranked_elem_of. apply top_lookup in Hk. by apply subseteq_take in Hk.
Qed.

Lemma top_size : (size top ≤ 10)%nat.
Proof.
  unfold top. rewrite map_size_list_to_map by apply top_NoDup.
  rewrite length_take. lia.
Qed.

Lemma top_largest k n k' n' :
  counts !! k = Some n → top !! k = None → top !! k' = Some n' → (n ≤ n')%nat.
Proof.
  intros Hk Hout Hin.
  apply ranked_elem_of in Hk. apply top_lookup in Hin.
  rewrite <- (take_drop 10 ranked) in Hk. apply elem_of_app in Hk as [Hk|Hk].
  - apply top_lookup in Hk. congruence.
  - apply (StronglySorted_take_drop (fun a b => (snd b ≤ snd a)%nat) 10 ranked
             (k', n') (k, n)); [apply order_by_count_desc_sorted|done|done].
Qed.

Lemma top_all : (size counts ≤ 10)%nat → top = counts.
Proof.
  intros Hsize. unfold top.
  rewrite take_ge.
  - unfold ranked.
    rewrite (list_to_map_proper _ (map_to_list counts)).
    + apply list_to_map_to_list.
    + apply ranked_NoDup.
    + apply order_by_count_desc_perm.
  - unfold ranked. rewrite order_by_count_desc_perm, length_map_to_list. done.
Qed.

End TopCompilers.



(** ** The records and the requests of a scan *)

Section Records.

Variable w : world.

Lemma str_truthy_ne s : str_truthy s = true → s ≠ "".
Proof. by destruct s. Qed.

Lemma admit_contract_record c a sd bc tr x c' :
  admit_contract w c a sd bc tr = (Accepted x, c') →
  ContractData.bytecode x = bc
  ∧ ContractData.source_code x = dict_get_default sd "SourceCode" ""
  ∧ ContractData.bytecode_hash x = _generate_bytecode_hash bc
  ∧ ContractData.source_hash x
    = _generate_source_hash (dict_get_default sd "SourceCode" "")
  ∧ ContractData.creation_txhash x = ""
  ∧ ContractData.block_number x = 0
  ∧ ContractData.chain x = chain_name c
  ∧ ContractData.chain_id x = chain_id c
  ∧ ContractData.address x = a.
Proof.
  unfold admit_contract.
  destruct (_is_duplicate_contract c _ _); [done|].
  destruct (runs_of w sd); [|done].
  intros [= <- <-]. simpl. done.
Qed.

(** An accepted record carries the hashes of its own code, code that
    is not empty, and the chain of the client that fetched it. *)
Lemma scan_address_record c a tr x c' tr' :
  scan_address w c a tr = (Accepted x, c', tr') →
  record_of (chain_name c) (chain_id c) [a] x.
Proof.
  unfold scan_address.
  pose proof (get_contract_source_state w c a tr) as Hs.
  destruct (get_contract_source w c a tr) as [[src c1] tr1]. simpl in Hs. subst c1.
  destruct src as [[sd|]|]; try done.
  destruct (negb _) eqn:Hd; [done|]. cbn [orb].
  destruct (str_truthy (dict_get_default sd "SourceCode" "")) eqn:Hsrc; [|done].
  cbn [negb].
  pose proof (get_contract_bytecode_state w (initialize c) a tr1) as Hb.
  destruct (get_contract_bytecode w (initialize c) a tr1) as [[code c2] tr2].
  simpl in Hb. rewrite initialize_idem in Hb. subst c2.
  destruct code as [[|bc|[|]|]|]; try done.
  destruct (str_truthy bc) eqn:Hbc; [|done].
  destruct (admit_contract w (initialize c) a sd bc tr2) as [r0 c3] eqn:Ha.
  intros [= -> <- <-].
  apply admit_contract_record in Ha
    as (E1 & E2 & E3 & E4 & E5 & E6 & E7 & E8 & E9).
  destruct (initialize_config c) as (Hn & _ & _ & Hi).
  unfold record_of, well_formed.
  rewrite E1, E2, E3, E4, E5, E6, E7, E8, E9, Hn, Hi.
  repeat split; try done; try by apply str_truthy_ne.
  apply list_elem_of_here.
Qed.

Lemma record_of_mono name id l l' x :
  l ⊆ l' → record_of name id l x → record_of name id l' x.
Proof.
  unfold record_of. intros Hl (? & ? & ? & ?).
  split; [done|]. split; [done|]. split; [done|]. by apply Hl.
Qed.

Lemma scan_loop_records name id all addresses : ∀ c tr contracts,
  chain_name c = name → chain_id c = id → addresses ⊆ all →
  Forall (record_of name id all) contracts →
  Forall (record_of name id all) (fst (fst (scan_loop w addresses c tr contracts))).
Proof.
  induction addresses as [|a rest IH]; intros c tr contracts Hn Hi Hsub Hall; [done|].
  cbn [scan_loop].
  destruct (scan_address w c a tr) as [[r c1] tr1] eqn:Hstep.
  pose proof (scan_address_spec w _ _ _ _ _ _ Hstep) as [(_ & _ & Hn1 & _ & _ & Hi1) _].
  assert (Hrest : rest ⊆ all) by (intros y Hy; by apply Hsub, list_elem_of_further).
  destruct r as [x|why].
  - apply IH; [congruence|congruence|done|].
    apply Forall_app. split; [done|]. constructor; [|done].
    apply scan_address_record in Hstep. rewrite Hn, Hi in Hstep.
    eapply record_of_mono; [|exact Hstep].
    intros y Hy. apply list_elem_of_singleton in Hy as ->.
    apply Hsub, list_elem_of_here.
  - apply IH; [congruence|congruence|done|done].
Qed.

Lemma get_verified_contracts_records c limit tr :
  Forall (record_of (chain_name c) (chain_id c) (slice_to (test_addresses c) limit))
         (fst (fst (get_verified_contracts w c limit tr))).
Proof. unfold get_verified_contracts. by apply scan_loop_records. Qed.

Lemma global_dedup_Forall (P : ContractData.t → Prop) contracts : ∀ gb gs uniq,
  Forall P contracts → Forall P uniq →
  Forall P (fst (fst (global_dedup contracts gb gs uniq))).
Proof.
  induction contracts as [|x rest IH]; intros gb gs uniq Hc Hu; [done|].
  apply Forall_cons in Hc as [Hx Hc].
  cbn [global_dedup]. destruct (_ && _); apply IH; try done.
  apply Forall_app. split; [done|]. by constructor.
Qed.

Lemma chains_loop_records (P : ContractData.t → Prop) limit cs :
  ∀ tr all gb gs,
    (∀ n c x, (n, c) ∈ cs →
       record_of (chain_name c) (chain_id c) (slice_to (test_addresses c) limit) x →
       P x) →
    Forall P all →
    Forall P (fst (fst (chains_loop w cs limit tr all gb gs))).
Proof.
  induction cs as [|[n c] rest IH]; intros tr all gb gs HP Hall; [done|].
  cbn [chains_loop].
  pose proof (get_verified_contracts_records c limit tr) as Hr.
  destruct (get_verified_contracts w c limit tr) as [[l c1] tr1]. simpl in Hr.
  pose proof (global_dedup_Forall P l gb gs []) as Hd.
  destruct (global_dedup l gb gs []) as [[uniq gb'] gs']. simpl in Hd.
  specialize (IH tr1 (all ++ uniq) gb' gs').
  destruct (chains_loop w rest limit tr1 (all ++ uniq) gb' gs') as [[out rest'] tr2].
  simpl in *. apply IH.
  - intros n' c' x Hin. apply (HP n' c'). by apply list_elem_of_further.
  - apply Forall_app. split; [done|]. apply Hd; [|done].
    eapply Forall_impl; [exact Hr|]. intros x. apply (HP n c). apply list_elem_of_here.
Qed.

Lemma dict_get_set ps k v : dict_get (dict_set ps k v) k = Some v.
Proof.
  induction ps as [|[k' v'] ps IH]; simpl.
  - by rewrite String.eqb_refl.
  - destruct (String.eqb k' k) eqn:E; simpl; rewrite E; [done|apply IH].
Qed.

Lemma _make_request_sent c ps tr :
  ∃ req, snd (_make_request w c ps tr) = tr ++ [req] ∧ sent_by c req.
Proof.
  eexists. split; [apply _make_request_trace|].
  split; [done|]. simpl. apply dict_get_set.
Qed.

Lemma sent_by_grows c c' req : grows c c' → sent_by c req ↔ sent_by c' req.
Proof. unfold sent_by. intros (_ & _ & _ & -> & -> & _). done. Qed.

(** One candidate costs one request, or two when it is verified. *)
Lemma scan_address_requests c a tr :
  ∃ new, snd (scan_address w c a tr) = tr ++ new
         ∧ Forall (sent_by c) new ∧ (1 ≤ length new ≤ 2)%nat.
Proof.
  unfold scan_address, get_contract_source.
  destruct (_make_request_sent c
              [("module", "contract"); ("action", "getsourcecode"); ("address", a)] tr)
    as (req1 & E1 & S1).
  pose proof (_make_request_state w c
                [("module", "contract"); ("action", "getsourcecode"); ("address", a)] tr)
    as Hs.
  destruct (_make_request w c _ tr) as [[resp c1] tr1]. simpl in E1, Hs. subst c1 tr1.
  assert (Hone : ∃ new, tr ++ [req1] = tr ++ new
                        ∧ Forall (sent_by c) new ∧ (1 ≤ length new ≤ 2)%nat).
  { exists [req1]. split; [done|]. split; [by constructor|simpl; lia]. }
  set (src := match resp with Some _ => _ | None => _ end). clearbody src.
  destruct src as [[sd|]|]; try done.
  destruct (negb _ || negb _); [done|].
  unfold get_contract_bytecode.
  destruct (_make_request_sent (initialize c)
              [("module", "proxy"); ("action", "eth_getCode"); ("address", a);
               ("tag", "latest")] (tr ++ [req1]))
    as (req2 & E2 & S2).
  apply (sent_by_grows c (initialize c) req2 (grows_initialize c)) in S2.
  destruct (_make_request w (initialize c) _ (tr ++ [req1])) as [[resp2 c2] tr2].
  simpl in E2. subst tr2.
  assert (Htwo : ∃ new, (tr ++ [req1]) ++ [req2] = tr ++ new
                        ∧ Forall (sent_by c) new ∧ (1 ≤ length new ≤ 2)%nat).
  { exists [req1; req2]. rewrite <- app_assoc. split; [done|].
    split; [|simpl; lia].
    apply Forall_cons. split; [done|]. apply Forall_cons. split; [done|].
    apply Forall_nil_2. }
  set (code := match resp2 with Some _ => _ | None => _ end). clearbody code.
  destruct code as [[|bc|[|]|]|]; try done.
  destruct (str_truthy bc); [|done].
  by destruct (admit_contract w c2 a sd bc _).
Qed.

Lemma scan_loop_requests addresses : ∀ c tr contracts,
  ∃ new, snd (scan_loop w addresses c tr contracts) = tr ++ new
         ∧ Forall (sent_by c) new
         ∧ (length addresses ≤ length new ≤ 2 * length addresses)%nat.
Proof.
  induction addresses as [|a rest IH]; intros c tr contracts.
  - exists []. rewrite app_nil_r. split; [done|]. split; [done|simpl; lia].
  - cbn [scan_loop].
    destruct (scan_address_requests c a tr) as (new1 & E1 & S1 & L1).
    destruct (scan_address w c a tr) as [[r c1] tr1] eqn:Hstep. simpl in E1. subst tr1.
    pose proof (scan_address_spec w _ _ _ _ _ _ Hstep) as [Hg _].
    assert (Hrest : ∀ contracts',
      ∃ new, snd (scan_loop w rest c1 (tr ++ new1) contracts') = tr ++ new
             ∧ Forall (sent_by c) new
             ∧ (length (a :: rest) ≤ length new ≤ 2 * length (a :: rest))%nat).
    { intros contracts'.
      destruct (IH c1 (tr ++ new1) contracts') as (new2 & E2 & S2 & L2).
      exists (new1 ++ new2). rewrite E2, <- app_assoc. split; [done|].
      split.
      - apply Forall_app. split; [done|].
        eapply Forall_impl; [exact S2|]. intros req. by apply sent_by_grows.
      - rewrite length_app. simpl. lia. }
    destruct r; apply Hrest.
Qed.

Lemma slice_to_length {A : Type} (l : list A) limit :
  (length (slice_to l limit) ≤ length l)%nat.
Proof. unfold slice_to. destruct (limit <? 0); rewrite length_take; lia. Qed.

Lemma test_addresses_length c : length (test_addresses c) = 5%nat.
Proof. unfold test_addresses. by destruct (String.eqb _ _). Qed.

End Records.




(** ** Scanning again *)

Section Rerun.

Variable w : world.

Lemma scanned_grows c c' a : scanned w c a → grows c c' → scanned w c' a.
Proof. intros (c0 & tr0 & Hg) Hg'. exists c0, tr0. by eapply grows_trans. Qed.

Lemma scan_loop_grows addresses : ∀ c tr contracts,
  grows c (snd (fst (scan_loop w addresses c tr contracts))).
Proof.
  induction addresses as [|a rest IH]; intros c tr contracts; [apply grows_refl|].
  cbn [scan_loop].
  destruct (scan_address w c a tr) as [[r c1] tr1] eqn:Hstep.
  apply scan_address_spec in Hstep as [Hg _].
  destruct r; (eapply grows_trans; [exact Hg|apply IH]).
Qed.

(** After the loop every address it went through is marked. *)
Lemma scan_loop_marks addresses : ∀ c tr contracts,
  Forall (scanned w (snd (fst (scan_loop w addresses c tr contracts)))) addresses.
Proof.
  induction addresses as [|a rest IH]; intros c tr contracts; [done|].
  cbn [scan_loop].
  destruct (scan_address w c a tr) as [[r c1] tr1] eqn:Hstep.
  assert (Hc1 : c1 = snd (fst (scan_address w c a tr))) by by rewrite Hstep.
  destruct r as [x|why].
  - constructor; [|apply IH].
    exists c, tr. rewrite <- Hc1. apply scan_loop_grows.
  - constructor; [|apply IH].
    exists c, tr. rewrite <- Hc1. apply scan_loop_grows.
Qed.

Lemma test_addresses_grows c c' : grows c c' → test_addresses c' = test_addresses c.
Proof. intros (_ & _ & Hn & _). unfold test_addresses. by rewrite Hn. Qed.

Lemma get_verified_contracts_marks c limit tr :
  Forall (scanned w (snd (fst (get_verified_contracts w c limit tr))))
         (slice_to (test_addresses (snd (fst (get_verified_contracts w c limit tr))))
                   limit).
Proof.
  rewrite (test_addresses_grows c) by apply scan_loop_grows.
  apply scan_loop_marks.
Qed.

Lemma chains_loop_marks limit cs : ∀ tr all gb gs,
  all_scanned w limit (snd (fst (chains_loop w cs limit tr all gb gs))).
Proof.
  unfold all_scanned.
  induction cs as [|[n c] rest IH]; intros tr all gb gs; [done|].
  cbn [chains_loop].
  pose proof (get_verified_contracts_marks c limit tr) as Hm.
  destruct (get_verified_contracts w c limit tr) as [[l c1] tr1]. simpl in Hm.
  destruct (global_dedup l gb gs []) as [[uniq gb'] gs'].
  specialize (IH tr1 (all ++ uniq) gb' gs').
  destruct (chains_loop w rest limit tr1 (all ++ uniq) gb' gs') as [[out rest'] tr2].
  simpl in *. by constructor.
Qed.

Hypothesis Hst : stationary w.

Lemma get_contract_source_stationary c1 c2 a tr1 tr2 :
  api_url c2 = api_url c1 → api_key c2 = api_key c1 →
  fst (fst (get_contract_source w c2 a tr2)) = fst (fst (get_contract_source w c1 a tr1)).
Proof.
  intros Hu Hk. unfold get_contract_source.
  rewrite !(_make_request_eq w). cbv beta iota. cbn [fst].
  by rewrite Hu, Hk, (Hst tr2 tr1).
Qed.

Lemma get_contract_bytecode_stationary c1 c2 a tr1 tr2 :
  api_url c2 = api_url c1 → api_key c2 = api_key c1 →
  fst (fst (get_contract_bytecode w c2 a tr2))
  = fst (fst (get_contract_bytecode w c1 a tr1)).
Proof.
  intros Hu Hk. unfold get_contract_bytecode.
  rewrite !(_make_request_eq w). cbv beta iota. cbn [fst].
  by rewrite Hu, Hk, (Hst tr2 tr1).
Qed.

(** An address that went through the loop is not accepted again: the
    explorer answers as before, and the hashes of what it serves are in
    the seen sets. *)
Lemma scan_address_again c a tr :
  scanned w c a → ∃ why, fst (fst (scan_address w c a tr)) = Skipped why.
Proof.
  intros (c0 & tr0 & Hg).
  assert (Hg0 : grows c0 (snd (fst (scan_address w c0 a tr0)))).
  { destruct (scan_address w c0 a tr0) as [[r c1] tr1] eqn:E.
    by apply scan_address_spec in E as [? _]. }
  pose proof (grows_trans _ _ _ Hg0 Hg) as (_ & _ & _ & Hu & Hk & _).
  revert Hg. clear Hg0. unfold scan_address.
  pose proof (get_contract_source_state w c0 a tr0) as Hs0.
  pose proof (get_contract_source_state w c a tr) as Hs.
  pose proof (get_contract_source_stationary c0 c a tr0 tr Hu Hk) as Hsrc.
  destruct (get_contract_source w c0 a tr0) as [[src0 c0a] tr0a].
  destruct (get_contract_source w c a tr) as [[src ca] tra].
  simpl in Hs0, Hs, Hsrc. subst c0a ca src.
  destruct src0 as [[sd|]|]; try (intros _; by eexists).
  destruct (negb _ || negb _); try (intros _; by eexists).
  destruct (initialize_config c0) as (_ & Hu0 & Hk0 & _).
  destruct (initialize_config c) as (_ & Hu1 & Hk1 & _).
  pose proof (get_contract_bytecode_state w (initialize c0) a tr0a) as Hb0.
  pose proof (get_contract_bytecode_state w (initialize c) a tra) as Hb.
  pose proof (get_contract_bytecode_stationary (initialize c0) (initialize c) a tr0a tra
                ltac:(congruence) ltac:(congruence)) as Hcode.
  destruct (get_contract_bytecode w (initialize c0) a tr0a) as [[code0 c0b] tr0b].
  destruct (get_contract_bytecode w (initialize c) a tra) as [[code cb] trb].
  simpl in Hb0, Hb, Hcode. rewrite initialize_idem in Hb0, Hb. subst c0b cb code.
  destruct code0 as [[|bc|[|]|]|]; try (intros _; by eexists).
  destruct (str_truthy bc); try (intros _; by eexists).
  destruct (admit_contract w (initialize c0) a sd bc tr0b) as [r0 c0'] eqn:Ha0.
  destruct (admit_contract w (initialize c) a sd bc trb) as [r c'] eqn:Ha.
  simpl. intros (Hb1 & Hs1 & _).
  apply admit_contract_spec in Ha0, Ha.
  assert (Hdup : _is_duplicate_contract (initialize c) (_generate_bytecode_hash bc)
                   (_generate_source_hash (dict_get_default sd "SourceCode" "")) = true).
  { apply _is_duplicate_contract_spec.
    destruct (initialize_seen c) as [-> ->].
    destruct (_is_duplicate_contract (initialize c0) _ _) eqn:Hd0.
    - destruct Ha0 as [_ ->].
      apply _is_duplicate_contract_spec in Hd0 as [Hd0|Hd0]; [left|right]; set_solver.
    - destruct Ha0 as [-> _]. unfold add_seen in Hb1, Hs1. simpl in Hb1, Hs1.
      left. set_solver. }
  rewrite Hdup in Ha. destruct Ha as [-> _]. by eexists.
Qed.

Lemma scan_loop_again addresses : ∀ c tr contracts,
  Forall (scanned w c) addresses →
  fst (fst (scan_loop w addresses c tr contracts)) = contracts.
Proof.
  induction addresses as [|a rest IH]; intros c tr contracts Hall; [done|].
  apply Forall_cons in Hall as [Ha Hrest].
  cbn [scan_loop].
  destruct (scan_address_again c a tr Ha) as [why Hwhy].
  destruct (scan_address w c a tr) as [[r c1] tr1] eqn:Hstep.
  simpl in Hwhy. subst r.
  apply scan_address_spec in Hstep as [Hg _].
  apply IH. eapply Forall_impl; [exact Hrest|].
  intros a' Ha'. by eapply scanned_grows.
Qed.

Lemma chains_loop_again limit cs : ∀ tr all gb gs,
  all_scanned w limit cs →
  fst (fst (chains_loop w cs limit tr all gb gs)) = all.
Proof.
  unfold all_scanned.
  induction cs as [|[n c] rest IH]; intros tr all gb gs Hall; [done|].
  apply Forall_cons in Hall as [Hc Hrest]. simpl in Hc.
  cbn [chains_loop].
  pose proof (scan_loop_again _ c tr [] Hc) as Hnil.
  fold (get_verified_contracts w c limit tr) in Hnil.
  destruct (get_verified_contracts w c limit tr) as [[l c1] tr1]. simpl in Hnil. subst l.
  cbn [global_dedup]. rewrite app_nil_r.
  specialize (IH tr1 all gb gs Hrest).
  destruct (chains_loop w rest limit tr1 all gb gs) as [[out rest'] tr2].
  done.
Qed.

Lemma get_all_verified_contracts_again m limit tr tr' :
  fst (fst (get_all_verified_contracts w
              (snd (fst (get_all_verified_contracts w m limit tr))) limit tr')) = [].
Proof.
  unfold get_all_verified_contracts.
  pose proof (chains_loop_marks limit (clients m) tr [] ∅ ∅) as Hm.
  destruct (chains_loop w (clients m) limit tr [] ∅ ∅) as [[out cs] tr1].
  simpl in *.
  pose proof (chains_loop_again limit cs tr' [] ∅ ∅ Hm) as Hnil.
  destruct (chains_loop w cs limit tr' [] ∅ ∅) as [[out' cs'] tr2].
  done.
Qed.

(** The system a discovery leaves behind when it returns. *)
Lemma discover_contracts_leaves k s chains limit gen tr r :
  fst (fst (discover_contracts w k s chains limit gen tr)) = Return r →
  is_initialized (snd (fst (discover_contracts w k s chains limit gen tr))) = true
  ∧ (client_manager (snd (fst (discover_contracts w k s chains limit gen tr))) = None
     ∨ ∃ m0 tr0,
         client_manager (snd (fst (discover_contracts w k s chains limit gen tr)))
         = Some (snd (fst (get_all_verified_contracts w m0 limit tr0)))).
Proof.
  unfold discover_contracts, system_initialize.
  destruct (is_initialized s) eqn:Hi.
  - destruct (client_manager s) as [m|] eqn:Hm; [|intros _; simpl; by auto].
    destruct (get_all_verified_contracts w m limit tr) as [[l m'] tr'] eqn:E.
    destruct l as [|x l].
    + intros _. simpl. split; [done|]. right. exists m, tr. by rewrite E.
    + destruct (_process_contracts k (database s) (x :: l) gen) as [res db].
      intros _. simpl. split; [done|]. right. exists m, tr. by rewrite E.
  - destruct (manager_initialize w (Manager [] false) tr) as [m tr1].
    destruct (github_initialize_ok k); [|done].
    cbn [client_manager database is_initialized].
    destruct (get_all_verified_contracts w m limit tr1) as [[l m'] tr'] eqn:E.
    destruct l as [|x l].
    + intros _. simpl. split; [done|]. right. exists m, tr1. by rewrite E.
    + destruct (_process_contracts k (database s) (x :: l) gen) as [res db].
      intros _. simpl. split; [done|]. right. exists m, tr1. by rewrite E.
Qed.

End Rerun.



(** ** The clients of the manager *)

Section Clients.

Variable w : world.

Lemma test_connection_state c tr : snd (fst (test_connection w c tr)) = initialize c.
Proof. unfold test_connection. by rewrite (_make_request_eq w). Qed.

Lemma clients_set_registered cs chain c :
  Forall (registered w) cs → registered w (chain, c) →
  Forall (registered w) (clients_set cs chain c).
Proof.
  intros Hcs Hc. induction cs as [|[k' c'] cs IH]; simpl.
  - by repeat constructor.
  - apply Forall_cons in Hcs as [Hk Hcs].
    destruct (String.eqb_spec k' chain) as [->|Hne].
    + by constructor.
    + constructor; [done|by apply IH].
Qed.

Lemma initialize_chain_registered chain cs tr :
  Forall (registered w) cs →
  Forall (registered w) (fst (initialize_chain w chain cs tr)).
Proof.
  intros Hcs. unfold initialize_chain.
  destruct (__init__ w chain) as [c0|msg] eqn:Hinit; [|done].
  pose proof (test_connection_state (initialize c0) tr) as Hst.
  destruct (test_connection w (initialize c0) tr) as [[ok c1] tr1] eqn:Ht.
  simpl in Hst. rewrite initialize_idem in Hst. subst c1.
  destruct ok; [|done]. simpl.
  apply clients_set_registered; [done|].
  exists c0. split; [done|]. split; [done|]. exists tr. by rewrite Ht.
Qed.

Lemma manager_initialize_registered m tr :
  Forall (registered w) (clients m) →
  Forall (registered w) (clients (fst (manager_initialize w m tr))).
Proof.
  intros Hm. unfold manager_initialize.
  destruct (_initialized m); [done|].
  unfold supported_chains. cbn [fold_left fst snd].
  pose proof (initialize_chain_registered "ethereum" (clients m) tr Hm) as H1.
  destruct (initialize_chain w "ethereum" (clients m) tr) as [cs1 tr1].
  cbn [fst snd] in *.
  pose proof (initialize_chain_registered "base" cs1 tr1 H1) as H2.
  destruct (initialize_chain w "base" cs1 tr1) as [cs2 tr2]. by cbn in *.
Qed.

Lemma manager_initialize_done m tr :
  _initialized (fst (manager_initialize w m tr)) = true.
Proof.
  unfold manager_initialize. destruct (_initialized m) eqn:E; [done|].
  by destruct (fold_left _ _ _).
Qed.

Lemma clients_get_Some l k c : clients_get l k = Some c → (k, c) ∈ l.
Proof.
  induction l as [|[k' c'] l IH]; [done|]. simpl.
  destruct (String.eqb_spec k' k) as [->|Hne].
  - intros [= ->]. apply list_elem_of_here.
  - intros H. by apply list_elem_of_further, IH.
Qed.

Lemma clients_get_None l k : clients_get l k = None ↔ k ∉ fst <$> l.
Proof.
  induction l as [|[k' c'] l IH]; simpl.
  - split; [intros _; apply not_elem_of_nil|done].
  - rewrite not_elem_of_cons. destruct (String.eqb_spec k' k) as [->|Hne].
    + split; [done|]. by intros [? _].
    + rewrite IH. split; [by split|by intros [_ ?]].
Qed.

(** What a registered client of a supported chain looks like. *)
Lemma registered_supported n c :
  registered w (n, c) → n ∈ supported_chains →
  session c = true ∧ seen_bytecode_hashes c = ∅ ∧ seen_source_hashes c = ∅
  ∧ throttler_rate_limit c = 4 ∧ chain_name c = n ∧ api_key c ≠ ""
  ∧ ((n = "ethereum" ∧ api_url c = "https://api.etherscan.io/api" ∧ chain_id c = 1
      ∧ getenv w "ETHERSCAN_API_KEY" = Some (api_key c))
     ∨ (n = "base" ∧ api_url c = "https://api.basescan.org/api" ∧ chain_id c = 8453
        ∧ getenv w "BASESCAN_API_KEY" = Some (api_key c)))
  ∧ ∃ tr0, fst (fst (test_connection w c tr0)) = true.
Proof.
  intros (c0 & Hinit & Hc & tr0 & Hok) Hn. simpl in Hinit, Hc. subst c.
  destruct (initialize_seen c0) as [-> ->].
  destruct (initialize_config c0) as (-> & -> & -> & ->).
  rewrite initialize_session.
  assert (Ht : throttler_rate_limit (initialize c0) = throttler_rate_limit c0)
    by (unfold initialize; by destruct (session c0)).
  rewrite Ht. clear Ht.
  split; [done|].
  assert (Hcases : n = "ethereum" ∨ n = "base").
  { unfold supported_chains in Hn.
    apply elem_of_cons in Hn as [->|Hn]; [by left|].
    apply elem_of_cons in Hn as [->|Hn]; [by right|].
    by apply elem_of_nil in Hn. }
  unfold __init__ in Hinit.
  assert (L1 : PyStr.lower "ethereum" = "ethereum") by (vm_compute; reflexivity).
  assert (L2 : PyStr.lower "base" = "base") by (vm_compute; reflexivity).
  assert (L3 : String.eqb "base" "ethereum" = false) by reflexivity.
  destruct Hcases as [-> | ->];
    rewrite ?L1, ?L2, ?L3, ?String.eqb_refl in Hinit; cbv beta iota zeta in Hinit.
  - destruct (getenv w "ETHERSCAN_API_KEY") as [key|] eqn:Hkey; [|done].
    destruct (str_truthy key) eqn:Htruthy; [|done].
    injection Hinit as <-. cbn.
    split; [done|]. split; [done|]. split; [done|]. split; [done|].
    split; [by apply str_truthy_ne|]. split; [left; by repeat split|].
    by exists tr0.
  - destruct (getenv w "BASESCAN_API_KEY") as [key|] eqn:Hkey; [|done].
    destruct (str_truthy key) eqn:Htruthy; [|done].
    injection Hinit as <-. cbn.
    split; [done|]. split; [done|]. split; [done|]. split; [done|].
    split; [by apply str_truthy_ne|]. split; [right; by repeat split|].
    by exists tr0.
Qed.

Lemma manager_initialize_supported tr n c :
  (n, c) ∈ clients (fst (manager_initialize w (Manager [] false) tr)) →
  n ∈ supported_chains.
Proof.
  intros Hin.
  pose proof (manager_initialize_chains w tr) as Hsub.
  apply sublist_subseteq in Hsub. apply Hsub.
  apply list_elem_of_fmap. by exists (n, c).
Qed.

End Clients.







(** ** Exporting, and storing what a discovery finds *)

Section CsvExport.

Lemma get_contracts_all db f :
  get_contracts db f None 0
  = if conn db
    then Sqlite.order_by_created_at_desc (List.filter (matches f) (contracts db))
    else [].
Proof. rewrite get_contracts_eq. by destruct (conn db). Qed.

Lemma filter_no_filters rows : List.filter (matches no_filters) rows = rows.
Proof. induction rows as [|r rows IH]; [done|]. simpl. by rewrite IH. Qed.

Lemma order_by_created_at_desc_nil rows :
  Sqlite.order_by_created_at_desc rows = [] ↔ rows = [].
Proof.
  split; [|by intros ->].
  intros H. apply Permutation_nil. by rewrite <- H, order_by_created_at_desc_perm.
Qed.

Lemma filter_nil_none f rows :
  List.filter (matches f) rows = [] ↔ ∀ r, r ∈ rows → matches f r = false.
Proof.
  induction rows as [|r rows IH]; simpl.
  - split; [intros _ r Hr; by apply elem_of_nil in Hr|done].
  - destruct (matches f r) eqn:E.
    + split; [done|]. intros H. specialize (H r (list_elem_of_here _ _)). congruence.
    + rewrite IH. split.
      * intros H r' Hr'. apply elem_of_cons in Hr' as [->|Hr']; [done|by apply H].
      * intros H r' Hr'. by apply H, list_elem_of_further.
Qed.

(** [export_to_csv] in terms of the rows that satisfy the filters. *)
Lemma export_to_csv_eq db f writable :
  export_to_csv db f writable
  = if conn db && writable
       && negb (forallb (fun r => negb (matches f r)) (contracts db))
    then (true, Some (map export_data
                        (Sqlite.order_by_created_at_desc
                           (List.filter (matches f) (contracts db)))))
    else (false, None).
Proof.
  unfold export_to_csv. rewrite get_contracts_all.
  destruct (conn db); [|done]. cbn [andb].
  destruct (forallb _ (contracts db)) eqn:Hall.
  - rewrite andb_false_r.
    assert (List.filter (matches f) (contracts db) = []) as ->; [|done].
    apply filter_nil_none. intros r Hr.
    rewrite forallb_forall in Hall. apply list_elem_of_In in Hr.
    apply Hall in Hr. by apply negb_true_iff in Hr.
  - rewrite andb_true_r.
    destruct (Sqlite.order_by_created_at_desc _) as [|r0 l] eqn:E; [|by destruct writable].
    apply (proj1 (order_by_created_at_desc_nil _)) in E.
    assert (forallb (λ r, negb (matches f r)) (contracts db) = true); [|congruence].
    apply forallb_forall. intros r Hr. apply list_elem_of_In in Hr.
    apply negb_true_iff. by apply (proj1 (filter_nil_none f (contracts db)) E).
Qed.

End CsvExport.



Section StoreAll.

Variable w : world.

Lemma get_all_verified_contracts_unique m limit tr :
  hash_unique (fst (fst (get_all_verified_contracts w m limit tr))).
Proof.
  unfold get_all_verified_contracts.
  destruct (chains_loop w (clients m) limit tr [] ∅ ∅) as [[out cs] tr1] eqn:E.
  apply chains_loop_spec in E as [Hu _]; [done|apply coherent_nil].
Qed.

Lemma get_all_verified_contracts_block m limit tr :
  Forall (fun x => ContractData.block_number x = 0
                   ∧ ∃ n c, (n, c) ∈ clients m ∧ ContractData.chain_id x = chain_id c)
         (fst (fst (get_all_verified_contracts w m limit tr))).
Proof.
  unfold get_all_verified_contracts.
  pose proof (chains_loop_records w
                (fun x => ContractData.block_number x = 0
                          ∧ ∃ n c, (n, c) ∈ clients m
                                   ∧ ContractData.chain_id x = chain_id c)
                limit (clients m) tr [] ∅ ∅) as H.
  destruct (chains_loop w (clients m) limit tr [] ∅ ∅) as [[out cs] tr1].
  simpl in *. apply H; [|apply Forall_nil_2].
  intros n c x Hin ((_ & _ & _ & _ & _ & Hb) & _ & Hi & _).
  split; [done|]. by exists n, c.
Qed.

End StoreAll.


